(** * LifeRhythm dashboard (app.py): a shallow embedding and its properties

    The development follows [app.py] section by section:
    - [Py]: the pieces of the Python runtime the script relies on (text as
      sequences of code points, [str.strip], [str.replace], [int], the
      fragment of [re] used by the score pattern, exceptions);
    - [Judge]: [ask_ai_for_score_and_advice];
    - [Viz]: [COLORS], [create_bar_chart] and [create_timeline_art] over
      binary64 floats;
    - [Shell]: the Streamlit script body, one rerun at a time, over
      [st.session_state].
    Definitions come first, the statements about them afterwards. *)

From Stdlib Require Import ZArith List Bool Lia Ascii String DecimalString.
From Stdlib Require Import Uint63 Floats QArith Qabs Lqa.
From stdpp Require Import gmap strings.
Import ListNotations.

Local Open Scope Z_scope.

(* ================================================================== *)
(** ** Python runtime model *)
(* ================================================================== *)
Module Py.

(** A Python [str] is a sequence of Unicode code points. *)
Definition codepoint := Z.
Definition str := list codepoint.

(** Source literals: app.py is UTF-8 text, a literal denotes the code points
    its bytes decode to. [utf8_go need acc bs] carries the number of
    continuation bytes still expected and the bits gathered so far. *)
Fixpoint utf8_go (need : nat) (acc : Z) (bs : list Z) : str :=
  match bs with
  | [] => []
  | b :: bs' =>
      match need with
      | O =>
          if b <? 128 then b :: utf8_go 0 0 bs'
          else if b <? 224 then utf8_go 1 (Z.land b 31) bs'
          else if b <? 240 then utf8_go 2 (Z.land b 15) bs'
          else utf8_go 3 (Z.land b 7) bs'
      | S n =>
          let acc' := acc * 64 + Z.land b 63 in
          match n with
          | O => acc' :: utf8_go 0 0 bs'
          | S _ => utf8_go n acc' bs'
          end
      end
  end.

Definition lit (s : string) : str :=
  utf8_go 0 0 (map (fun a => Z.of_nat (nat_of_ascii a)) (list_ascii_of_string s)).

(** *** Character classes

    [str.isspace], [str.strip] and the pattern class [\s] of a [str] pattern
    all test [Py_UNICODE_ISSPACE]: the code points below. *)
Definition whitespace_points : list codepoint :=
  [9; 10; 11; 12; 13; 28; 29; 30; 31; 32; 133; 160; 5760;
   8192; 8193; 8194; 8195; 8196; 8197; 8198; 8199; 8200; 8201; 8202;
   8232; 8233; 8239; 8287; 12288].

Definition isspace (c : codepoint) : bool :=
  existsb (Z.eqb c) whitespace_points.

(** The pattern class [\d] of a [str] pattern and [int] accept the Unicode
    decimal digits (category Nd). They come in runs of ten, zero first; the
    table lists the zero of each run (Unicode 14.0, as shipped with
    CPython 3.11; later versions append runs). *)
Definition decimal_zeros : list codepoint :=
  [48; 1632; 1776; 1984; 2406; 2534; 2662; 2790; 2918; 3046; 3174; 3302;
   3430; 3558; 3664; 3792; 3872; 4160; 4240; 6112; 6160; 6470; 6608; 6784;
   6800; 6992; 7088; 7232; 7248; 42528; 43216; 43264; 43472; 43504; 43600;
   44016; 65296; 66720; 68912; 69734; 69872; 69942; 70096; 70384; 70736;
   70864; 71248; 71360; 71472; 71904; 72016; 72784; 73040; 73120; 92768;
   92864; 93008; 120782; 120792; 120802; 120812; 120822; 123200; 123632;
   125264; 130032].

Definition in_run (c zero : codepoint) : bool :=
  (zero <=? c) && (c <? zero + 10).

(** [unicodedata.decimal]: the digit a code point stands for, if any. *)
Definition decimal_value (c : codepoint) : option Z :=
  match find (in_run c) decimal_zeros with
  | Some zero => Some (c - zero)
  | None => None
  end.

Definition isdecimal (c : codepoint) : bool :=
  match decimal_value c with Some _ => true | None => false end.

(** *** [str] methods *)

Fixpoint lstrip (s : str) : str :=
  match s with
  | c :: s' => if isspace c then lstrip s' else s
  | [] => []
  end.

Definition rstrip (s : str) : str := rev (lstrip (rev s)).

(** [s.strip()] *)
Definition strip (s : str) : str := rstrip (lstrip s).

Fixpoint startswith (s p : str) {struct p} : bool :=
  match p, s with
  | [], _ => true
  | _ :: _, [] => false
  | a :: p', c :: s' => (c =? a) && startswith s' p'
  end.

(** [replace_go old new skip s]: the left-to-right scan of [str.replace] for
    a non-empty [old]; [skip] counts the characters of the occurrence just
    found that are still to be passed over. *)
Fixpoint replace_go (old new : str) (skip : nat) (s : str) : str :=
  match s with
  | [] => []
  | c :: s' =>
      match skip with
      | S k => replace_go old new k s'
      | O =>
          if startswith s old
          then new ++ replace_go old new (Nat.pred (length old)) s'
          else c :: replace_go old new 0 s'
      end
  end.

(** [s.replace(old, new)]: every non-overlapping occurrence, leftmost first;
    an empty [old] matches between all characters and at both ends. *)
Definition replace (s old new : str) : str :=
  match old with
  | [] => new ++ flat_map (fun c => c :: new) s
  | _ :: _ => replace_go old new 0 s
  end.

(** *** Exceptions

    An exception is an instance of a class: [exc_class e] names the class,
    [exc_bases e] the classes it derives from, nearest first, as in the
    class's [__mro__]; [exc_str e] is [str(e)]. *)
Record exception := {
  exc_class : string;
  exc_bases : list string;
  exc_str : str
}.

(** [isinstance(e, cls)] *)
Definition isinstance (e : exception) (cls : string) : bool :=
  existsb (String.eqb cls) (exc_class e :: exc_bases e).

(** The built-in classes that occur below. [KeyboardInterrupt], like
    [SystemExit] and [GeneratorExit], derives from [BaseException] and not
    from [Exception]. *)
Definition ValueError (msg : str) : exception :=
  {| exc_class := "ValueError";
     exc_bases := ["Exception"; "BaseException"; "object"]%string;
     exc_str := msg |}.

Definition TypeError (msg : str) : exception :=
  {| exc_class := "TypeError";
     exc_bases := ["Exception"; "BaseException"; "object"]%string;
     exc_str := msg |}.

Definition KeyError (msg : str) : exception :=
  {| exc_class := "KeyError";
     exc_bases := ["LookupError"; "Exception"; "BaseException"; "object"]%string;
     exc_str := msg |}.

Definition KeyboardInterrupt : exception :=
  {| exc_class := "KeyboardInterrupt";
     exc_bases := ["BaseException"; "object"]%string;
     exc_str := [] |}.

Inductive result (A : Type) : Type :=
| Return (a : A)
| Raised (e : exception).
Arguments Return {A} a.
Arguments Raised {A} e.

Definition bind {A B} (r : result A) (k : A -> result B) : result B :=
  match r with
  | Return a => k a
  | Raised e => Raised e
  end.

(** [try: body  except cls as e: handler(e)]: an exception that is not an
    instance of [cls] is not handled and goes on to the caller. *)
Definition try_except {A} (body : result A) (cls : string)
    (handler : exception -> result A) : result A :=
  match body with
  | Return a => Return a
  | Raised e => if isinstance e cls then handler e else Raised e
  end.

(** *** [int] on text

    [digits_value s] is the number written by [s] when [s] is a non-empty
    run of decimal digits. *)
Fixpoint digits_acc (acc : Z) (s : str) : option Z :=
  match s with
  | [] => Some acc
  | c :: s' =>
      match decimal_value c with
      | Some d => digits_acc (acc * 10 + d) s'
      | None => None
      end
  end.

Definition digits_value (s : str) : option Z :=
  match s with
  | [] => None
  | _ :: _ => digits_acc 0 s
  end.

Definition decimal_text (n : nat) : str :=
  lit (NilEmpty.string_of_uint (Nat.to_uint n)).

(** Integer string conversion length limitation (CPython 3.11, and 3.7.14,
    3.8.14, 3.9.14, 3.10.7 onwards): [int] raises a [ValueError] on a text
    of more than [sys.get_int_max_str_digits()] digits; the limit is 4300
    unless configured otherwise, 0 switches the check off, and a text of at
    most 640 digits is never checked. Leading zeros count as digits. *)
Definition default_max_str_digits : nat := 4300.
Definition max_str_digits_threshold : nat := 640.

Definition exceeds_limit (max_str_digits ndigits : nat) : bool :=
  (max_str_digits_threshold <? ndigits)%nat
  && (0 <? max_str_digits)%nat && (max_str_digits <? ndigits)%nat.

Definition limit_error (max_str_digits ndigits : nat) : exception :=
  ValueError (lit "Exceeds the limit (" ++ decimal_text max_str_digits
              ++ lit " digits) for integer string conversion: value has "
              ++ decimal_text ndigits
              ++ lit " digits; use sys.set_int_max_str_digits() to increase the limit").

(** [int(s)] for the texts the score pattern can capture. A text that is not
    a run of decimal digits is outside what [(\d+)] captures; for it the
    model only records that [int] raises a [ValueError] ([int] proper also
    reads signs, blanks and underscores). *)
Definition int (max_str_digits : nat) (s : str) : result Z :=
  match digits_value s with
  | None => Raised (ValueError (lit "invalid literal for int() with base 10"))
  | Some v =>
      if exceeds_limit max_str_digits (length s)
      then Raised (limit_error max_str_digits (length s))
      else Return v
  end.

(** *** The fragment of [re] the score pattern uses

    A pattern is a sequence of pieces; a piece matches one character of a
    class, once or under a greedy [*] or [+], and may be a capture group. *)
Inductive quantifier := Once | ZeroOrMore | OneOrMore.

Record piece := Piece {
  p_class : codepoint -> bool;
  p_quant : quantifier;
  p_group : bool
}.

Definition pattern := list piece.

(** [repeat_greedy p min k taken s]: take characters of class [p] from [s]
    as long as possible, then hand what was taken and the rest to the
    continuation [k]; when [k] fails, give characters back one at a time,
    never going below [min] more characters. *)
Fixpoint repeat_greedy {R} (p : codepoint -> bool) (min : nat)
    (k : str -> str -> option R) (taken : str) (s : str) : option R :=
  let stop := match min with O => k taken s | S _ => None end in
  match s with
  | c :: s' =>
      if p c then
        match repeat_greedy p (Nat.pred min) k (taken ++ [c]) s' with
        | Some r => Some r
        | None => stop
        end
      else stop
  | [] => stop
  end.

(** [match_here ps s]: match the pieces at the start of [s]; the answer is
    the whole matched text and the captured groups, in order. *)
Fixpoint match_here (ps : pattern) (s : str) : option (str * list str) :=
  match ps with
  | [] => Some ([], [])
  | p :: ps' =>
      let k (taken rest : str) :=
        match match_here ps' rest with
        | Some (t, gs) =>
            Some (taken ++ t, if p_group p then taken :: gs else gs)
        | None => None
        end in
      match p_quant p with
      | Once =>
          match s with
          | c :: s' => if p_class p c then k [c] s' else None
          | [] => None
          end
      | ZeroOrMore => repeat_greedy (p_class p) 0 k [] s
      | OneOrMore => repeat_greedy (p_class p) 1 k [] s
      end
  end.

(** A match object: where the match starts, [group(0)] and the groups. *)
Record match_object := Match {
  m_start : nat;
  m_whole : str;
  m_groups : list str
}.

Definition group (n : nat) (m : match_object) : str :=
  match n with
  | O => m_whole m
  | S i => nth i (m_groups m) []
  end.

Fixpoint search_from (ps : pattern) (start : nat) (s : str)
  : option match_object :=
  match match_here ps s with
  | Some (t, gs) => Some (Match start t gs)
  | None =>
      match s with
      | [] => None
      | _ :: s' => search_from ps (S start) s'
      end
  end.

(** [re.search(pattern, s)]: the leftmost match. *)
Definition re_search (ps : pattern) (s : str) : option match_object :=
  search_from ps 0 s.

Definition literal (s : str) : pattern :=
  map (fun c => Piece (Z.eqb c) Once false) s.

End Py.

(* ================================================================== *)
(** ** 2. The AI engine *)
(* ================================================================== *)
Module Judge.
Import Py.

(** What [requests.get] hands back. *)
Record response := { status_code : Z; text : str }.

(** [r"SCORE:\s*(\d+)"] *)
Definition score_prefix : str := lit "SCORE:".

Definition SCORE_PATTERN : pattern :=
  literal score_prefix
  ++ [Piece isspace ZeroOrMore false; Piece isdecimal OneOrMore true].

Definition format_error : str := lit "AI 형식이 올바르지 않습니다. 내용: ".
Definition connection_error : str := lit "AI 서버 연결 오류입니다.".
Definition error_prefix : str := lit "Error: ".

(** The body of the [try] block. Lines 29-49 build the prompt and the URL;
    they reach the result only through the answer of the remote service,
    which is the argument [reply]: the response, or the exception that
    came out of [requests.get], of whatever class. *)
Definition judge_body (max_str_digits : nat) (reply : result response)
  : result (Z * str) :=
  bind reply (fun response =>
  if status_code response =? 200 then
    let full_text := text response in
    match re_search SCORE_PATTERN full_text with
    | Some m =>
        bind (int max_str_digits (group 1 m)) (fun ai_score =>
        let ai_advice := strip (replace full_text (group 0 m) []) in
        Return (ai_score, ai_advice))
    | None => Return (0, format_error ++ full_text)
    end
  else Return (0, connection_error)).

Definition ask_ai_for_score_and_advice (max_str_digits : nat)
    (reply : result response) : result (Z * str) :=
  try_except (judge_body max_str_digits reply) "Exception"
             (fun e => Return (0, error_prefix ++ exc_str e)).

End Judge.

(* ================================================================== *)
(** ** 1 and 3. Colours and the visualisation engine *)
(* ================================================================== *)
Module Viz.

Local Open Scope string_scope.
Local Open Scope float_scope.

(** A dict literal, read in insertion order: [data.items()]. *)
Definition dict (V : Type) := list (string * V).
Definition keys {V} (d : dict V) : list string := map fst d.
Definition values {V} (d : dict V) : list V := map snd d.

Definition COLORS : gmap string string :=
  list_to_map
    [("Sleep", "#2C3E50"); ("Study", "#E67E22"); ("Screen", "#E74C3C");
     ("Exercise", "#27AE60"); ("Social", "#F1C40F"); ("Others", "#95A5A6")].

(** [COLORS.get(cat, fallback)] *)
Definition COLORS_get (cat fallback : string) : string :=
  default fallback (COLORS !! cat).

(** The five slider values; hours are Python floats (binary64). *)
Record RoutineInput := {
  sleep : float; study : float; screen : float;
  exercise : float; social : float
}.

(** Line 167. *)
Definition input_data (r : RoutineInput) : dict float :=
  [("Sleep", sleep r); ("Study", study r); ("Screen", screen r);
   ("Exercise", exercise r); ("Social", social r)].

(** *** [create_bar_chart]

    Of the figure the model keeps what the function decides: the bars that
    [ax.bar] builds (one per category and value, in order) and the texts
    that the loop adds. A text is addressed by the bar it is centred on.

    [Axes.bar] does not store a height as given: it takes it relative to
    the bottom of the bars, [convert(bottom + height) - bottom], where the
    bottom is 0 ([Axes._convert_dx]); [bar.get_height()] reads that. *)
Record bar := { bar_x : string; bar_height : float; bar_color : string }.

Record bar_text := { text_bar : string; text_y : float; text_hours : float }.

Record figure := { fig_bars : list bar; fig_texts : list bar_text }.

Definition convert_dx (dx x0 : float) : float := (x0 + dx) - x0.

Fixpoint ax_bar (categories : list string) (vals : list float)
    (colors : list string) : list bar :=
  match categories, vals, colors with
  | cat :: cs, v :: vs, col :: cols =>
      {| bar_x := cat; bar_height := convert_dx v 0; bar_color := col |}
      :: ax_bar cs vs cols
  | _, _, _ => []
  end.

Definition create_bar_chart (data : dict float) : figure :=
  let categories := keys data in
  let vals := values data in
  let bar_colors := map (fun cat => COLORS_get cat "#95A5A6") categories in
  let bars := ax_bar categories vals bar_colors in
  let texts :=
    flat_map (fun b =>
      let height := bar_height b in
      if 0 <? height
      then [{| text_bar := bar_x b; text_y := height + 0.5;
               text_hours := height |}]
      else []) bars in
  {| fig_bars := bars; fig_texts := texts |}.

(** *** [create_timeline_art]

    The image is kept as its size, its background and the rectangles drawn
    on it with [draw.rectangle([(x0, y0), (x1, y1)], fill)], in drawing
    order. *)
Definition width : float := 1200.
Definition height : float := 150.

Record rectangle := {
  x0 : float; y0 : float; x1 : float; y1 : float; fill : string
}.

Record image := {
  size : float * float;
  background : string;
  shapes : list rectangle
}.

(** [sum(values)]: additions from the left, starting from 0. *)
Definition py_sum (vals : list float) : float := fold_left PrimFloat.add vals 0.

(** [max(a, b)]: [b] only when it is greater. *)
Definition py_max (a b : float) : float := if a <? b then b else a.

(** The loop of lines 125-130: [current_x] and the rectangles drawn so far
    are the loop state. *)
Fixpoint draw_sections (pixels_per_hour : float) (items : dict float)
    (current_x : float) (drawn : list rectangle) : float * list rectangle :=
  match items with
  | [] => (current_x, drawn)
  | (category, hours) :: rest =>
      if 0 <? hours then
        let section_width := hours * pixels_per_hour in
        let color := COLORS_get category "#95A5A6" in
        draw_sections pixels_per_hour rest (current_x + section_width)
          (drawn ++ [{| x0 := current_x; y0 := 0;
                        x1 := current_x + section_width; y1 := height;
                        fill := color |}])
      else draw_sections pixels_per_hour rest current_x drawn
  end.

Definition create_timeline_art (data : dict float) : image :=
  let total_input := py_sum (values data) in
  let base_hours := py_max 24 total_input in
  let pixels_per_hour := width / base_hours in
  let '(current_x, drawn) := draw_sections pixels_per_hour data 0 [] in
  {| size := (width, height);
     background := "white";
     shapes :=
       if current_x <? width
       then drawn ++ [{| x0 := current_x; y0 := 0; x1 := width; y1 := height;
                         fill := COLORS !!! "Others" |}]
       else drawn |}.

End Viz.

(* ================================================================== *)
(** ** 4. The Streamlit script *)
(* ================================================================== *)
Module Shell.
Import Py Judge Viz.

Local Open Scope string_scope.

(** The values the script keeps in [st.session_state]. *)
Inductive pyval := PyNone | PyInt (z : Z) | PyStr (s : str).

(** One rerun of the script: the slider positions, whether the rerun was
    caused by the button, and what the remote service would answer. *)
Record interaction := {
  sliders : RoutineInput;
  button : bool;
  reply : result response
}.

Inductive box := Success | Warning | Error.

(** The right column: the hint, or the metric and the coloured box. *)
Inductive panel :=
| Prompt
| Evaluation (final_score : Z) (final_advice : pyval) (b : box).

Record display := {
  over_24 : bool;
  chart : figure;
  judgement : panel;
  art : image
}.

(** The [KeyError] of a key that [st.session_state] does not hold (of its
    message only the key is kept). *)
Definition key_error (k : string) : exception := KeyError (lit k).

(** Lines 144-147. *)
Definition init_state (ss : gmap string pyval) : gmap string pyval :=
  let ss := match ss !! "ai_score" with
            | None => <["ai_score" := PyNone]> ss
            | Some _ => ss
            end in
  match ss !! "ai_advice" with
  | None => <["ai_advice" := PyNone]> ss
  | Some _ => ss
  end.

(** Lines 187-194. *)
Definition on_button (max_str_digits : nat) (ev : interaction)
    (ss : gmap string pyval) : result (gmap string pyval) :=
  if button ev then
    bind (ask_ai_for_score_and_advice max_str_digits (reply ev))
      (fun '(score, advice) =>
         Return (<["ai_advice" := PyStr advice]> (<["ai_score" := PyInt score]> ss)))
  else Return ss.

(** Lines 205-210: which box the advice goes in. *)
Definition box_for (final_score : Z) : box :=
  if (80 <=? final_score)%Z then Success
  else if (50 <=? final_score)%Z then Warning
  else Error.

(** Lines 197-212. *)
Definition show_result (ss : gmap string pyval) : result panel :=
  match ss !! "ai_score" with
  | None => Raised (key_error "ai_score")
  | Some PyNone => Return Prompt
  | Some (PyInt final_score) =>
      match ss !! "ai_advice" with
      | None => Raised (key_error "ai_advice")
      | Some final_advice =>
          Return (Evaluation final_score final_advice (box_for final_score))
      end
  | Some (PyStr _) =>
      Raised (TypeError (lit "'>=' not supported between instances of 'str' and 'int'"))
  end.

(** One rerun: the state it leaves and what it renders (an exception ends
    the rerun; what was stored before it stays). *)
Definition run_script (max_str_digits : nat) (ss : gmap string pyval)
    (ev : interaction) : gmap string pyval * result display :=
  let ss := init_state ss in
  let r := sliders ev in
  let total_hours :=
    (sleep r + study r + screen r + exercise r + social r)%float in
  let data := input_data r in
  match on_button max_str_digits ev ss with
  | Raised e => (ss, Raised e)
  | Return ss' =>
      (ss', bind (show_result ss') (fun p =>
            Return {| over_24 := (24 <? total_hours)%float;
                      chart := create_bar_chart data;
                      judgement := p;
                      art := create_timeline_art data |}))
  end.


End Shell.

(* ================================================================== *)
(** ** 2, first half. The request: prompt and URL (lines 28-49) *)
(* ================================================================== *)
Module Request.
Import Py Judge Viz.

(** *** [urllib.parse.quote]

    [quote(string)] encodes a [str] as UTF-8 with [errors='strict'] and
    percent-encodes every byte that is not always safe and not in [safe],
    which is ['/'] unless given. [None] stands for the [UnicodeEncodeError]
    that the encoding raises on a surrogate. *)
Definition utf8_char (c : codepoint) : option (list Z) :=
  if c <? 0 then None
  else if c <? 128 then Some [c]
  else if c <? 2048 then Some [192 + c / 64; 128 + c mod 64]
  else if c <? 65536 then
    if (55296 <=? c) && (c <? 57344) then None
    else Some [224 + c / 4096; 128 + (c / 64) mod 64; 128 + c mod 64]
  else if c <? 1114112 then
    Some [240 + c / 262144; 128 + (c / 4096) mod 64;
          128 + (c / 64) mod 64; 128 + c mod 64]
  else None.

(** [s.encode('utf-8')] *)
Fixpoint utf8_encode (s : str) : option (list Z) :=
  match s with
  | [] => Some []
  | c :: s' =>
      match utf8_char c, utf8_encode s' with
      | Some bs, Some rest => Some (bs ++ rest)
      | _, _ => None
      end
  end.

(** [_ALWAYS_SAFE]: letters, digits and [_.-~]. *)
Definition always_safe (b : Z) : bool :=
  ((65 <=? b) && (b <=? 90)) || ((97 <=? b) && (b <=? 122))
  || ((48 <=? b) && (b <=? 57))
  || (b =? 95) || (b =? 46) || (b =? 45) || (b =? 126).

Definition hex_digit (d : Z) : codepoint :=
  if d <? 10 then 48 + d else 55 + d.

(** [chr(b) if b in safe else '%{:02X}'.format(b)] *)
Definition quote_byte (safe : list Z) (b : Z) : str :=
  if always_safe b || existsb (Z.eqb b) safe then [b]
  else [37; hex_digit (b / 16); hex_digit (b mod 16)].

Definition quote_from_bytes (bs : list Z) (safe : list Z) : str :=
  flat_map (quote_byte safe) bs.

Definition quote (s : str) : option str :=
  match utf8_encode s with
  | Some bs => Some (quote_from_bytes bs [47])
  | None => None
  end.

(** [sep.join(parts)] *)
Fixpoint str_join (sep : str) (parts : list str) : str :=
  match parts with
  | [] => []
  | [p] => p
  | p :: ps => p ++ sep ++ str_join sep ps
  end.

Section Prompt.

(** [f"{v}"] for a float [v] is [format(v, '')], the interpreter's shortest
    round-trip notation; the model takes it as given. *)
Variable format_float : float -> str.

(** Line 29. *)
Definition data_str (data : dict float) : str :=
  str_join (lit ", ")
    (map (fun kv => lit (fst kv) ++ lit ": " ++ format_float (snd kv) ++ lit "h")
         data).

(** A line of the template: four blanks, the text, a line break. *)
Definition template_line (s : str) : str := lit "    " ++ s ++ [10].

(** Lines 33-46. *)
Definition prompt (data : dict float) : str :=
  [10]
  ++ template_line (lit "Analyze this daily routine data: [" ++ data_str data ++ lit "].")
  ++ template_line []
  ++ template_line (lit "Task 1: Evaluate the life balance and give a Score (0-100) based on your judgment.")
  ++ template_line (lit "Task 2: Give a witty, slightly savage advice in Korean based on the score.")
  ++ template_line []
  ++ template_line (lit "IMPORTANT FORMAT:")
  ++ template_line (lit "The first line MUST be exactly: " ++ [34]
                    ++ lit "SCORE: <number>" ++ [34])
  ++ template_line (lit "Then write your advice on the next line.")
  ++ template_line []
  ++ template_line (lit "Example:")
  ++ template_line (lit "SCORE: 75")
  ++ template_line (lit "잠이 조금 부족하네요... (Your advice here)")
  ++ lit "    ".

Definition base_url : str := lit "https://text.pollinations.ai/".

(** Lines 48-49. *)
Definition api_url (data : dict float) : option str :=
  match quote (prompt data) with
  | Some encoded_prompt => Some (base_url ++ encoded_prompt)
  | None => None
  end.

(** The whole of [ask_ai_for_score_and_advice(data)]: the URL is built
    outside the [try] block, so an encoding error there is not caught
    ([None]); [requests_get] is what the network does with a URL. *)
Definition ask_remote (max_str_digits : nat)
    (requests_get : str -> result response) (data : dict float)
  : option (result (Z * str)) :=
  match api_url data with
  | Some url => Some (ask_ai_for_score_and_advice max_str_digits (requests_get url))
  | None => None
  end.

End Prompt.

End Request.

Import Py Judge Viz Shell.
Import Request.

(* ================================================================== *)
(** ** Vocabulary of the statements *)
(* ================================================================== *)

Fixpoint take_while (p : codepoint -> bool) (s : str) : str :=
  match s with
  | c :: s' => if p c then c :: take_while p s' else []
  | [] => []
  end.

Fixpoint drop_while (p : codepoint -> bool) (s : str) : str :=
  match s with
  | c :: s' => if p c then drop_while p s' else s
  | [] => []
  end.

(** A score token: the prefix, blanks, digits. *)
Definition token (ws ds : str) : str := score_prefix ++ ws ++ ds.

Definition spaces (ws : str) : Prop := forallb isspace ws = true.

Definition digits (ds : str) : Prop := ds <> [] /\ forallb isdecimal ds = true.

(** The text after a token does not go on with a digit. *)
Definition digits_end (post : str) : Prop :=
  match post with
  | c :: _ => isdecimal c = false
  | [] => True
  end.

(** A score token stands at index [i] of [body]. *)
Definition token_at (body : str) (i : nat) (ws ds : str) : Prop :=
  exists pre post,
    body = pre ++ token ws ds ++ post /\ length pre = i /\ spaces ws /\ digits ds.

(** [m] occurs in [s]. *)
Definition occurs (m s : str) : Prop := exists a b, s = a ++ m ++ b.

(** [sep.join(pieces)] *)
Fixpoint join (sep : str) (pieces : list str) : str :=
  match pieces with
  | [] => []
  | [p] => p
  | p :: ps => p ++ sep ++ join sep ps
  end.

(** An HTTP-200 answer with the given body. *)
Definition ok_response (body : str) : result response :=
  Return {| status_code := 200; text := body |}.

(** What [match_here SCORE_PATTERN] computes, without backtracking. *)
Definition match_at (s : str) : option (str * list str) :=
  if startswith s score_prefix then
    let r := skipn (length score_prefix) s in
    let ws := take_while isspace r in
    let ds := take_while isdecimal (drop_while isspace r) in
    match ds with
    | [] => None
    | _ :: _ => Some (token ws ds, [ds])
    end
  else None.

(** [m in s] *)
Fixpoint contains (s m : str) : bool :=
  startswith s m ||
  match s with
  | [] => false
  | _ :: s' => contains s' m
  end.

(** The search as the specification words it: the first place where the
    fixed prefix is immediately followed by decimal digits; the answer is
    the index and the digits. *)
Fixpoint stated_search (prefix : str) (i : nat) (s : str) : option (nat * str) :=
  let here :=
    if startswith s prefix
    then take_while isdecimal (skipn (length prefix) s)
    else [] in
  match here with
  | _ :: _ => Some (i, here)
  | [] =>
      match s with
      | [] => None
      | _ :: s' => stated_search prefix (S i) s'
      end
  end.

(** The judge's answer to an HTTP-200 body under the default digit limit. *)
Definition judged (body : str) : result (Z * str) :=
  ask_ai_for_score_and_advice default_max_str_digits (ok_response body).

(** An outcome of the remote call that the function turns into a pair: a
    response, or an exception that is an instance of [Exception]. *)
Definition caught (reply : result response) : bool :=
  match reply with
  | Return _ => true
  | Raised e => isinstance e "Exception"
  end.

(** No escape read literally: every outcome of the remote call comes back
    as a pair. *)
Definition stated_never_raises (max_str_digits : nat) : Prop :=
  forall reply, exists score advice,
    ask_ai_for_score_and_advice max_str_digits reply = Return (score, advice).

(** The parsing rule read literally, for a fixed [prefix]: the digits that
    immediately follow its first occurrence are the score. *)
Definition stated_parse (prefix body : str) : Prop :=
  forall i ds, stated_search prefix 0 body = Some (i, ds) ->
  exists score advice,
    digits_value ds = Some score /\ judged body = Return (score, advice).

(** Pass-through read literally: whatever number the matched token writes,
    outside 0-100, comes back as the score. *)
Definition stated_pass_through (max_str_digits : nat) (body : str) : Prop :=
  forall m v,
    re_search SCORE_PATTERN body = Some m ->
    digits_value (group 1 m) = Some v ->
    v < 0 \/ 100 < v ->
    exists advice,
      ask_ai_for_score_and_advice max_str_digits (ok_response body)
      = Return (v, advice).

(** Removal read literally: when the matched text occurs twice in the body,
    the advice does not contain it. *)
Definition stated_absent (body : str) : Prop :=
  forall m score advice,
    re_search SCORE_PATTERN body = Some m ->
    (exists a b c, body = a ++ group 0 m ++ b ++ group 0 m ++ c) ->
    judged body = Return (score, advice) ->
    contains advice (group 0 m) = false.

(** Rectangles in a row from [a] to [b]: each starts where the one before
    it ends. *)
Fixpoint chained (a : float) (rs : list rectangle) (b : float) : Prop :=
  match rs with
  | [] => a = b
  | r :: rs' => x0 r = a /\ chained (x1 r) rs' b
  end.

(** The entries that get a section: hours above zero. *)
Definition positive_hours (data : dict float) : dict float :=
  List.filter (fun kv => (0 <? snd kv)%float) data.

(** The scale: [max(24, sum of the hours)]. *)
Definition denominator (data : dict float) : float :=
  py_max 24%float (py_sum (values data)).


(** The width of a section as the code computes it. *)
Definition section_width (data : dict float) (hours : float) : float :=
  (hours * (width / denominator data))%float.

(** A section of the strip for [hours] of [category]. *)
Definition section_of (data : dict float) (kv : string * float)
    (seg : rectangle) : Prop :=
  fill seg = COLORS_get (fst kv) "#95A5A6" /\
  x1 seg = (x0 seg + section_width data (snd kv))%float /\
  y0 seg = 0%float /\ y1 seg = height.

(** The slider position [k]: sliders run from 0.0 in steps of 0.5, up to
    24.0 at position 48. *)
Definition half_hours (k : nat) : float :=
  (of_uint63 (Uint63.of_Z (Z.of_nat k)) * 0.5)%float.

Definition slider_input (k1 k2 k3 k4 k5 : nat) : RoutineInput :=
  {| sleep := half_hours k1; study := half_hours k2; screen := half_hours k3;
     exercise := half_hours k4; social := half_hours k5 |}.




Definition add_exact (a b : nat) : bool :=
  PrimFloat.Leibniz.eqb (half_hours a + half_hours b)%float (half_hours (a + b)).

(** The pair the judge hands to the script in a rerun. *)
Definition verdict (max_str_digits : nat) (ev : interaction) : Z * str :=
  match ask_ai_for_score_and_advice max_str_digits (reply ev) with
  | Return p => p
  | Raised _ => (0, [])
  end.


Definition interrupted (ev : interaction) : bool :=
  button ev && negb (caught (reply ev)).




(** The right column of a rendering, when the rerun got that far. *)
Definition shown (d : option (result display)) : option panel :=
  match d with
  | Some (Return d) => Some (judgement d)
  | _ => None
  end.

(** A code point that UTF-8 can encode: in range and not a surrogate. *)
Definition scalar (c : codepoint) : bool :=
  ((0 <=? c) && (c <? 55296)) || ((57344 <=? c) && (c <? 1114112)).

(** A character a quoted text is made of. *)
Definition url_char (c : codepoint) : bool :=
  always_safe c || (c =? 47) || (c =? 37).

Definition unhex (c : codepoint) : Z :=
  if c <? 58 then c - 48 else c - 55.

(** Percent-decoding, the way back from [quote_from_bytes]. *)
Fixpoint unquote_to_bytes (s : str) : list Z :=
  match s with
  | [] => []
  | c :: s' =>
      if c =? 37 then
        match s' with
        | h :: l :: rest => (16 * unhex h + unhex l) :: unquote_to_bytes rest
        | _ => [c]
        end
      else c :: unquote_to_bytes s'
  end.

Definition unquote (s : str) : str := utf8_go 0 0 (unquote_to_bytes s).

(** The template before and after the data. *)
Definition prompt_head : str :=
  [10] ++ lit "    " ++ lit "Analyze this daily routine data: [".

Definition prompt_tail : str :=
  skipn (length prompt_head) (prompt (fun _ => []) []).

(** A text that neither starts nor ends with a blank. *)
Definition no_edge_space (s : str) : Prop :=
  match s with c :: _ => isspace c = false | [] => True end /\
  match rev s with c :: _ => isspace c = false | [] => True end.

(** The replies the judge cannot score and the message each one gets: an
    exception that the handler catches, a status other than 200, a body in
    which [SCORE:] does not occur. *)
Definition failure_message (reply : result response) : option str :=
  match reply with
  | Raised e =>
      if isinstance e "Exception" then Some (error_prefix ++ exc_str e)
      else None
  | Return r =>
      if status_code r =? 200 then
        if contains (text r) score_prefix then None
        else Some (format_error ++ text r)
      else Some connection_error
  end.

(** A state as the script leaves it: under [ai_score] nothing, [None] or an
    integer. *)
Definition script_state (ss : gmap string pyval) : Prop :=
  match ss !! "ai_score" with
  | Some (PyStr _) => False
  | _ => True
  end.

(** The pixel position [n] as a float. *)
Definition px (n : nat) : float := of_uint63 (Uint63.of_Z (Z.of_nat n)).

(** A dict of slider positions (in half hours) as the dict of hours the
    script builds from them. *)
Definition slider_dict (items : list (string * nat)) : dict float :=
  map (fun ck => (fst ck, half_hours (snd ck))) items.

Definition total_positions (items : list (string * nat)) : nat :=
  list_sum (map snd items).

(** The strip at 25 pixels per half hour: a section for every position
    above zero, from pixel [25 * start] on. *)
Fixpoint exact_sections (start : nat) (items : list (string * nat))
  : list rectangle :=
  match items with
  | [] => []
  | (category, k) :: rest =>
      if (0 <? k)%nat then
        {| x0 := px (25 * start); y0 := 0; x1 := px (25 * (start + k));
           y1 := height; fill := COLORS_get category "#95A5A6" |}
        :: exact_sections (start + k) rest
      else exact_sections start rest
  end.

Definition scale_check (t : nat) : bool :=
  PrimFloat.Leibniz.eqb (width / py_max 24 (half_hours t))%float 50%float.

Definition width_check (k : nat) : bool :=
  PrimFloat.Leibniz.eqb (half_hours k * 50)%float (px (25 * k)).

Definition px_add_check (a b : nat) : bool :=
  PrimFloat.Leibniz.eqb (px (25 * a) + px (25 * b))%float (px (25 * (a + b))).

Definition positive_check (k : nat) : bool :=
  Bool.eqb (0 <? half_hours k)%float (0 <? k)%nat.

Definition fill_check (t : nat) : bool :=
  Bool.eqb (px (25 * t) <? width)%float (t <? 48)%nat.

Definition over_check (t : nat) : bool :=
  Bool.eqb (24 <? half_hours t)%float (48 <? t)%nat.

(** The number [h], a zero of either sign being written [0.0]. *)
Definition unsigned_zero (h : float) : float :=
  if (h =? 0)%float then 0%float else h.

(** The bar and the label that the chart has for one dict entry. *)
Definition bar_of (kv : string * float) : bar :=
  {| bar_x := fst kv; bar_height := unsigned_zero (snd kv);
     bar_color := COLORS_get (fst kv) "#95A5A6" |}.

Definition label_of (kv : string * float) : bar_text :=
  {| text_bar := fst kv; text_y := (snd kv + 0.5)%float; text_hours := snd kv |}.

(** The label of a bar: centred on the bar, 0.5 above its top, reading its
    height. *)
Definition label_on (b : bar) : bar_text :=
  {| text_bar := bar_x b; text_y := (bar_height b + 0.5)%float;
     text_hours := bar_height b |}.

(** Hours that are not below zero (and so a number). *)
Definition nonnegative (h : float) : Prop := (0 <=? h)%float = true.


















(* ================================================================== *)
(** ** Character classes *)
(* ================================================================== *)

Lemma isspace_not_decimal c : isspace c = true -> isdecimal c = false.
Proof.
  unfold isspace, whitespace_points. cbn [existsb]. intros H.
  repeat (apply orb_true_iff in H; destruct H as [H | H];
          [apply Z.eqb_eq in H; subst c; vm_compute; reflexivity | ]).
  discriminate.
Qed.

Lemma isdecimal_not_space c : isdecimal c = true -> isspace c = false.
Proof.
  intros H. destruct (isspace c) eqn:E; [ | reflexivity].
  apply isspace_not_decimal in E. congruence.
Qed.

Lemma decimal_value_range c d : decimal_value c = Some d -> 0 <= d <= 9.
Proof.
  unfold decimal_value. destruct (find (in_run c) decimal_zeros) as [z | ] eqn:E;
    [ | discriminate].
  intros [= <-]. apply find_some in E as [_ E]. unfold in_run in E.
  apply andb_true_iff in E as [E1 E2]. lia.
Qed.

Lemma isdecimal_value c : isdecimal c = true -> exists d, decimal_value c = Some d.
Proof.
  unfold isdecimal. destruct (decimal_value c) as [d | ]; [eauto | discriminate].
Qed.

Lemma isspace_not_S c : isspace c = true -> c <> 83.
Proof. intros H ->. vm_compute in H. discriminate. Qed.

Lemma isdecimal_not_S c : isdecimal c = true -> c <> 83.
Proof. intros H ->. vm_compute in H. discriminate. Qed.

(* ================================================================== *)
(** ** Lists of code points *)
(* ================================================================== *)

Lemma take_drop_while p s : take_while p s ++ drop_while p s = s.
Proof.
  induction s as [ | c s IH]; cbn; [reflexivity | ].
  destruct (p c); cbn; [now rewrite IH | reflexivity].
Qed.

Lemma take_while_all p s : forallb p (take_while p s) = true.
Proof.
  induction s as [ | c s IH]; cbn; [reflexivity | ].
  destruct (p c) eqn:E; cbn; [now rewrite E | reflexivity].
Qed.

Lemma drop_while_head p s c r : drop_while p s = c :: r -> p c = false.
Proof.
  induction s as [ | a s IH]; cbn; [discriminate | ].
  destruct (p a) eqn:E; [exact IH | ]. now intros [= <- _].
Qed.

(** A run of [p] followed by something that does not start with [p]. *)
Lemma take_while_app p run rest :
  forallb p run = true ->
  match rest with c :: _ => p c = false | [] => True end ->
  take_while p (run ++ rest) = run /\ drop_while p (run ++ rest) = rest.
Proof.
  intros Hrun Hrest. induction run as [ | c run IH]; cbn in *.
  - destruct rest as [ | c r]; cbn; [easy | now rewrite Hrest].
  - apply andb_true_iff in Hrun as [-> Hrun]. destruct (IH Hrun) as [-> ->]. easy.
Qed.

Lemma startswith_app s p : startswith (p ++ s) p = true.
Proof. induction p as [ | a p IH]; cbn; [reflexivity | now rewrite Z.eqb_refl]. Qed.

Lemma startswith_inv p : forall s, startswith s p = true -> exists r, s = p ++ r.
Proof.
  induction p as [ | a p IH]; intros s H; cbn in *; [now exists s | ].
  destruct s as [ | c s]; [discriminate | ].
  apply andb_true_iff in H as [Hc H]. apply Z.eqb_eq in Hc as ->.
  destruct (IH _ H) as [r ->]. now exists r.
Qed.

Lemma startswith_head s p a :
  startswith s (a :: p) = true -> exists r, s = a :: r.
Proof. intros H. apply startswith_inv in H as [r ->]. now exists (p ++ r). Qed.

Lemma skipn_app_length {A} (l r : list A) : skipn (length l) (l ++ r) = r.
Proof. induction l; cbn; auto. Qed.


Example lit_korean :
  lit "인생 잘 사네요" = [51064; 49373; 32; 51096; 32; 49324; 45348; 50836].
Proof. reflexivity. Qed.

Example lit_messages :
  connection_error
  = [65; 73; 32; 49436; 48260; 32; 50672; 44208; 32; 50724; 47448; 51077;
     45768; 45796; 46]
  /\ format_error
  = [65; 73; 32; 54805; 49885; 51060; 32; 50732; 48148; 47476; 51648; 32;
     50506; 49845; 45768; 45796; 46; 32; 45236; 50857; 58; 32]
  /\ exc_str (limit_error 4300 4301)
  = lit "Exceeds the limit (4300 digits) for integer string conversion: value has 4301 digits; use sys.set_int_max_str_digits() to increase the limit".
Proof. split; [ | split]; vm_compute; reflexivity. Qed.
(* ================================================================== *)
(** ** The score pattern *)
(* ================================================================== *)

Section Greedy.
Context {R : Type} (p : codepoint -> bool) (k : str -> str -> option R).

(** A continuation that cannot fail is entered after the longest run. *)
Lemma repeat_greedy_total :
  (forall t r, k t r <> None) ->
  forall s min taken,
    repeat_greedy p min k taken s =
    if (min <=? length (take_while p s))%nat
    then k (taken ++ take_while p s) (drop_while p s)
    else None.
Proof.
  intros Hk. induction s as [ | c s IH]; intros min taken; cbn.
  - destruct min; cbn; [now rewrite app_nil_r | reflexivity].
  - destruct (p c) eqn:E.
    + rewrite IH. cbn [length]. rewrite <- app_assoc. cbn [app].
      destruct min as [ | min]; cbn [Nat.pred Nat.leb].
      * destruct (k (taken ++ c :: take_while p s) (drop_while p s)) eqn:Ek;
          [reflexivity | now apply Hk in Ek].
      * destruct (min <=? length (take_while p s))%nat; [ | reflexivity].
        destruct (k (taken ++ c :: take_while p s) (drop_while p s)) eqn:Ek;
          [reflexivity | now apply Hk in Ek].
    + destruct min; cbn; [now rewrite app_nil_r | reflexivity].
Qed.

(** A continuation that fails on a character of the class gains nothing
    from characters given back. *)
Lemma repeat_greedy_no_backtrack :
  (forall t c r, p c = true -> k t (c :: r) = None) ->
  forall s taken,
    repeat_greedy p 0 k taken s = k (taken ++ take_while p s) (drop_while p s).
Proof.
  intros Hk. induction s as [ | c s IH]; intros taken; cbn.
  - now rewrite app_nil_r.
  - destruct (p c) eqn:E.
    + rewrite IH, <- app_assoc. cbn [app].
      destruct (k (taken ++ c :: take_while p s) (drop_while p s)) eqn:Ek;
        [reflexivity | ].
      now apply Hk.
    + now rewrite app_nil_r.
Qed.
End Greedy.

Lemma match_here_literal l ps : forall s,
  match_here (literal l ++ ps) s =
  if startswith s l then
    match match_here ps (skipn (length l) s) with
    | Some (t, gs) => Some (l ++ t, gs)
    | None => None
    end
  else None.
Proof.
  induction l as [ | a l IH]; intros s.
  - cbn. rewrite skipn_O. now destruct (match_here ps s) as [[t gs] | ].
  - destruct s as [ | c s]; [reflexivity | ].
    cbn [literal map app match_here p_quant p_class p_group startswith length].
    rewrite skipn_cons.
    rewrite (Z.eqb_sym a c). destruct (c =? a) eqn:E; [ | reflexivity].
    cbn [andb]. fold (literal l). rewrite IH.
    destruct (startswith s l); [ | reflexivity].
    apply Z.eqb_eq in E as ->.
    now destruct (match_here ps (skipn (length l) s)) as [[t gs] | ].
Qed.

Lemma match_here_digits s :
  match_here [Piece isdecimal OneOrMore true] s =
  match take_while isdecimal s with
  | [] => None
  | ds => Some (ds, [ds])
  end.
Proof.
  cbn [match_here p_quant p_class p_group].
  rewrite repeat_greedy_total by (intros t r; discriminate).
  destruct (take_while isdecimal s) as [ | d ds]; cbn; [reflexivity | ].
  now rewrite app_nil_r.
Qed.

Lemma match_here_score s : match_here SCORE_PATTERN s = match_at s.
Proof.
  unfold SCORE_PATTERN, match_at. rewrite match_here_literal.
  destruct (startswith s score_prefix); [ | reflexivity].
  set (r := skipn (length score_prefix) s).
  change (match_here [Piece isspace ZeroOrMore false; Piece isdecimal OneOrMore true] r)
    with (repeat_greedy isspace 0
            (fun taken rest =>
               match match_here [Piece isdecimal OneOrMore true] rest with
               | Some (t, gs) => Some (taken ++ t, gs)
               | None => None
               end) [] r).
  rewrite repeat_greedy_no_backtrack.
  - rewrite match_here_digits. cbn [app].
    now destruct (take_while isdecimal (drop_while isspace r)).
  - intros t c rest Hc. rewrite match_here_digits. cbn.
    now rewrite (isspace_not_decimal _ Hc).
Qed.

Lemma token_app ws ds post :
  token ws ds ++ post = score_prefix ++ ws ++ ds ++ post.
Proof. unfold token. now rewrite <- !app_assoc. Qed.

Lemma match_at_some s t gs :
  match_at s = Some (t, gs) ->
  exists ws ds post,
    s = token ws ds ++ post /\ t = token ws ds /\ gs = [ds] /\
    spaces ws /\ digits ds /\ digits_end post.
Proof.
  unfold match_at. destruct (startswith s score_prefix) eqn:E; [ | discriminate].
  apply startswith_inv in E as [r ->]. rewrite skipn_app_length.
  destruct (take_while isdecimal (drop_while isspace r)) as [ | d ds] eqn:Eds;
    [discriminate | ].
  intros [= <- <-].
  exists (take_while isspace r), (d :: ds), (drop_while isdecimal (drop_while isspace r)).
  repeat split.
  - rewrite token_app, <- Eds, take_drop_while, take_drop_while. reflexivity.
  - apply take_while_all.
  - discriminate.
  - rewrite <- Eds. apply take_while_all.
  - unfold digits_end.
    destruct (drop_while isdecimal (drop_while isspace r)) as [ | c post] eqn:Ep;
      [exact I | ].
    eapply drop_while_head, Ep.
Qed.

Lemma match_at_token ws ds post :
  spaces ws -> digits ds -> digits_end post ->
  match_at (token ws ds ++ post) = Some (token ws ds, [ds]).
Proof.
  intros Hws [Hne Hds] Hpost. rewrite token_app. unfold match_at.
  rewrite startswith_app, skipn_app_length.
  destruct (take_while_app isspace ws (ds ++ post) Hws) as [-> ->].
  { destruct ds as [ | d ds]; [easy | ]. cbn in *.
    apply andb_true_iff in Hds as [Hd _]. now apply isdecimal_not_space. }
  destruct (take_while_app isdecimal ds post Hds Hpost) as [-> _].
  destruct ds; [easy | reflexivity].
Qed.

(** Any token at the start of [s], maximal or not, makes the pattern match. *)
Lemma match_at_none s ws ds post :
  match_at s = None -> s = token ws ds ++ post -> spaces ws -> digits ds -> False.
Proof.
  intros Hnone -> Hws [Hne Hds].
  assert (E : token ws ds ++ post =
              token ws (ds ++ take_while isdecimal post) ++ drop_while isdecimal post).
  { rewrite !token_app, <- app_assoc, take_drop_while. reflexivity. }
  rewrite E, match_at_token in Hnone; [discriminate | exact Hws | | ].
  - split; [now destruct ds | ].
    rewrite forallb_app, Hds. apply take_while_all.
  - unfold digits_end. destruct (drop_while isdecimal post) eqn:Ep; [exact I | ].
    eapply drop_while_head, Ep.
Qed.

Lemma search_from_eq ps n s :
  search_from ps n s =
  match match_here ps s with
  | Some (t, gs) => Some (Match n t gs)
  | None => match s with [] => None | _ :: s' => search_from ps (S n) s' end
  end.
Proof. destruct s; reflexivity. Qed.

Lemma search_skip ps s : forall pre n,
  (forall a b, pre = a ++ b -> b <> [] -> match_here ps (b ++ s) = None) ->
  search_from ps n (pre ++ s) = search_from ps (n + length pre) s.
Proof.
  induction pre as [ | c pre IH]; intros n H.
  - cbn. now rewrite Nat.add_0_r.
  - rewrite search_from_eq, (H [] (c :: pre)) by easy. cbn [app length].
    rewrite IH; [f_equal; lia | ].
    intros a b -> Hb. apply (H (c :: a) b); easy.
Qed.

(** What [re.search] returns is the leftmost token, digits taken to their end. *)
Lemma search_sound : forall s n m,
  search_from SCORE_PATTERN n s = Some m ->
  exists pre ws ds post,
    s = pre ++ token ws ds ++ post /\
    m = Match (n + length pre) (token ws ds) [ds] /\
    spaces ws /\ digits ds /\ digits_end post /\
    (forall a b, pre = a ++ b -> b <> [] ->
                 match_at (b ++ token ws ds ++ post) = None).
Proof.
  induction s as [ | c s IH]; intros n m; rewrite search_from_eq, match_here_score.
  - destruct (match_at []) as [[t gs] | ] eqn:E; [ | discriminate].
    intros [= <-]. apply match_at_some in E as (ws & ds & post & E & -> & -> & H).
    exists [], ws, ds, post. cbn. rewrite Nat.add_0_r.
    repeat split; try apply H; try easy.
    all: intros a b Hab; now destruct a, b.
  - destruct (match_at (c :: s)) as [[t gs] | ] eqn:E.
    + intros [= <-]. apply match_at_some in E as (ws & ds & post & E & -> & -> & H).
      exists [], ws, ds, post. cbn [app length]. rewrite Nat.add_0_r.
      repeat split; try apply H; try easy.
      all: intros a b Hab; now destruct a, b.
    + intros Hs. apply IH in Hs as (pre & ws & ds & post & -> & -> & Hws & Hds & Hp & Hfirst).
      exists (c :: pre), ws, ds, post. cbn [app length].
      repeat split; try easy; try apply Hds.
      * f_equal. lia.
      * intros a b Hab Hb. destruct a as [ | a0 a].
        -- cbn in Hab. subst b. exact E.
        -- injection Hab as -> ->. exact (Hfirst a b eq_refl Hb).
Qed.

Lemma re_search_first body pre ws ds post :
  body = pre ++ token ws ds ++ post ->
  spaces ws -> digits ds -> digits_end post ->
  (forall j ws' ds', (j < length pre)%nat -> ~ token_at body j ws' ds') ->
  re_search SCORE_PATTERN body = Some (Match (length pre) (token ws ds) [ds]).
Proof.
  intros -> Hws Hds Hpost Hfirst. unfold re_search. rewrite search_skip.
  - rewrite search_from_eq, match_here_score, match_at_token by assumption.
    reflexivity.
  - intros a b -> Hb. rewrite match_here_score.
    destruct (match_at (b ++ token ws ds ++ post)) as [[t gs] | ] eqn:E;
      [ | reflexivity].
    exfalso. apply match_at_some in E as (ws' & ds' & post' & E & _ & _ & Hws' & Hds' & _).
    apply (Hfirst (length a) ws' ds').
    + rewrite length_app. destruct b; [easy | cbn; lia].
    + exists a, post'. rewrite <- app_assoc, E. easy.
Qed.

Lemma re_search_token body m :
  re_search SCORE_PATTERN body = Some m ->
  exists ws ds, token_at body (m_start m) ws ds /\
                group 0 m = token ws ds /\ group 1 m = ds.
Proof.
  intros H. apply search_sound in H as (pre & ws & ds & post & -> & -> & Hws & Hds & _).
  exists ws, ds. split; [ | easy]. now exists pre, post.
Qed.

Lemma re_search_none body :
  (forall i ws ds, ~ token_at body i ws ds) -> re_search SCORE_PATTERN body = None.
Proof.
  intros H. destruct (re_search SCORE_PATTERN body) as [m | ] eqn:E; [ | reflexivity].
  apply re_search_token in E as (ws & ds & Ht & _). now apply H in Ht.
Qed.

Lemma search_none_all ps : forall s n,
  search_from ps n s = None -> forall a b, s = a ++ b -> match_here ps b = None.
Proof.
  induction s as [ | c s IH]; intros n H a b Hab; rewrite search_from_eq in H.
  - destruct a, b; try discriminate.
    now destruct (match_here ps []) as [[t gs] | ].
  - destruct (match_here ps (c :: s)) as [[t gs] | ] eqn:E; [discriminate | ].
    destruct a as [ | a0 a]; cbn in Hab.
    + now subst b.
    + injection Hab as _ ->. eapply IH; eauto.
Qed.

(** Any token in the body makes the search succeed. *)
Lemma re_search_complete body i ws ds :
  token_at body i ws ds -> re_search SCORE_PATTERN body <> None.
Proof.
  intros (pre & post & -> & _ & Hws & Hds) H.
  eapply search_none_all in H; [ | reflexivity].
  rewrite match_here_score in H. eapply match_at_none; eauto.
Qed.

(* ================================================================== *)
(** ** [strip], [replace], [int] *)
(* ================================================================== *)

Lemma lstrip_suffix s : exists l, s = l ++ lstrip s.
Proof.
  induction s as [ | c s [l IH]]; cbn [lstrip]; [now exists [] | ].
  destruct (isspace c); [ | now exists []].
  exists (c :: l). cbn. now f_equal.
Qed.

Lemma strip_infix s : exists l r, s = l ++ strip s ++ r.
Proof.
  unfold strip, rstrip. destruct (lstrip_suffix s) as [l Hl].
  destruct (lstrip_suffix (rev (lstrip s))) as [r Hr].
  exists l, (rev r). rewrite <- rev_app_distr, <- Hr, rev_involutive. exact Hl.
Qed.

Lemma occurs_strip m s : occurs m (strip s) -> occurs m s.
Proof.
  intros (a & b & E). destruct (strip_infix s) as (l & r & Hs).
  exists (l ++ a), (b ++ r). rewrite Hs, E. now rewrite <- !app_assoc.
Qed.

Lemma contains_occurs s m : contains s m = true <-> occurs m s.
Proof.
  split.
  - induction s as [ | c s IH]; cbn; intros H; apply orb_true_iff in H as [H | H].
    + apply startswith_inv in H as [r ->]. now exists [], r.
    + discriminate.
    + apply startswith_inv in H as [r ->]. now exists [], r.
    + destruct (IH H) as (a & b & ->). now exists (c :: a), b.
  - intros (a & b & ->). induction a as [ | c a IH]; cbn [app].
    + destruct (m ++ b) eqn:E; cbn; rewrite <- ?E, startswith_app; reflexivity.
    + cbn. rewrite IH. apply orb_true_r.
Qed.

Lemma not_contains_occurs s m : contains s m = false -> ~ occurs m s.
Proof. intros H Ho. apply contains_occurs in Ho. congruence. Qed.

Lemma replace_go_skip old new : forall s k,
  (k <= length s)%nat ->
  replace_go old new k s = replace_go old new 0 (skipn k s).
Proof.
  induction s as [ | c s IH]; intros [ | k] Hk; cbn [length] in Hk;
    try reflexivity; try lia.
  rewrite skipn_cons. cbn [replace_go]. apply IH. lia.
Qed.

Lemma replace_go_hit h t new rest :
  replace_go (h :: t) new 0 ((h :: t) ++ rest)
  = new ++ replace_go (h :: t) new 0 rest.
Proof.
  cbn [app replace_go]. change (h :: t ++ rest) with ((h :: t) ++ rest).
  rewrite startswith_app. cbn [length Nat.pred].
  rewrite replace_go_skip, skipn_app_length; [reflexivity | ].
  rewrite length_app. lia.
Qed.

Lemma replace_go_miss old new c s :
  startswith (c :: s) old = false ->
  replace_go old new 0 (c :: s) = c :: replace_go old new 0 s.
Proof. intros H. cbn [replace_go]. now rewrite H. Qed.

(** A text whose first character does not come back later cannot start
    again inside one of its own occurrences. *)
Lemma no_early_start h t c p rest :
  ~ In h t -> ~ occurs (h :: t) (c :: p) ->
  startswith ((c :: p) ++ (h :: t) ++ rest) (h :: t) = false.
Proof.
  intros Hh Hp. destruct (startswith _ _) eqn:E; [ | reflexivity].
  exfalso. apply startswith_inv in E as [r E].
  apply app_eq_app in E as [l [[E1 E2] | [E1 E2]]].
  - apply Hp. exists [], l. exact E1.
  - destruct l as [ | x l].
    + apply Hp. exists [], []. rewrite app_nil_r in E1. rewrite <- E1.
      now rewrite app_nil_r.
    + cbn in E2. injection E2 as <- _. cbn in E1. injection E1 as _ ->.
      apply Hh, in_or_app. right. now left.
Qed.

Lemma replace_go_piece h t new rest :
  ~ In h t -> forall p, ~ occurs (h :: t) p ->
  replace_go (h :: t) new 0 (p ++ (h :: t) ++ rest)
  = p ++ new ++ replace_go (h :: t) new 0 rest.
Proof.
  intros Hh. induction p as [ | c p IH]; intros Hp.
  - apply replace_go_hit.
  - change ((c :: p) ++ (h :: t) ++ rest) with (c :: (p ++ (h :: t) ++ rest)).
    rewrite replace_go_miss by (apply (no_early_start h t c p rest Hh Hp)).
    cbn [app]. f_equal. apply IH.
    intros (a & b & ->). apply Hp. now exists (c :: a), b.
Qed.

Lemma replace_go_clean old new : forall p,
  ~ occurs old p -> replace_go old new 0 p = p.
Proof.
  induction p as [ | c p IH]; intros Hp; [reflexivity | ].
  rewrite replace_go_miss.
  - f_equal. apply IH. intros (a & b & ->). apply Hp. now exists (c :: a), b.
  - destruct (startswith (c :: p) old) eqn:E; [ | reflexivity].
    exfalso. apply startswith_inv in E as [r E]. apply Hp. now exists [], r.
Qed.

Lemma replace_join h t pieces :
  ~ In h t -> Forall (fun p => ~ occurs (h :: t) p) pieces ->
  replace (join (h :: t) pieces) (h :: t) [] = concat pieces.
Proof.
  intros Hh. unfold replace. induction pieces as [ | p ps IH]; intros Hall.
  - reflexivity.
  - inversion Hall as [ | ? ? Hp Hps]; subst.
    destruct ps as [ | q ps].
    + cbn. rewrite app_nil_r. now apply replace_go_clean.
    + change (join (h :: t) (p :: q :: ps))
        with (p ++ (h :: t) ++ join (h :: t) (q :: ps)).
      rewrite replace_go_piece by assumption. cbn [app concat].
      f_equal. now apply IH.
Qed.

Lemma token_first_char_unique ws ds :
  spaces ws -> digits ds ->
  exists t, token ws ds = 83 :: t /\ ~ In 83 t.
Proof.
  intros Hws [_ Hds]. exists (lit "CORE:" ++ ws ++ ds). split; [reflexivity | ].
  intros H. apply in_app_or in H as [H | H].
  - vm_compute in H. intuition discriminate.
  - apply in_app_or in H as [H | H].
    + unfold spaces in Hws. rewrite forallb_forall in Hws.
      now apply Hws, isspace_not_S in H.
    + rewrite forallb_forall in Hds. now apply Hds, isdecimal_not_S in H.
Qed.

Lemma digits_acc_ok : forall ds acc,
  forallb isdecimal ds = true -> 0 <= acc ->
  exists v, digits_acc acc ds = Some v /\ 0 <= v.
Proof.
  induction ds as [ | c ds IH]; intros acc Hds Hacc; cbn in *.
  - now exists acc.
  - apply andb_true_iff in Hds as [Hc Hds].
    apply isdecimal_value in Hc as [d Hd]. rewrite Hd.
    apply decimal_value_range in Hd. apply IH; [exact Hds | lia].
Qed.

Lemma digits_value_ok ds :
  digits ds -> exists v, digits_value ds = Some v /\ 0 <= v.
Proof.
  intros [Hne Hds]. destruct ds as [ | c ds]; [easy | ].
  unfold digits_value. now apply digits_acc_ok.
Qed.

Lemma int_of_digits max ds v :
  digits_value ds = Some v ->
  int max ds = if exceeds_limit max (length ds)
               then Raised (limit_error max (length ds))
               else Return v.
Proof. intros H. unfold int. now rewrite H. Qed.

(** What [int] raises is a [ValueError], an instance of [Exception]. *)
Lemma int_error_class max s e :
  int max s = Raised e -> isinstance e "Exception" = true.
Proof.
  unfold int. destruct (digits_value s); [destruct (exceeds_limit max (length s)) | ];
    intros [= <-]; reflexivity.
Qed.

(* ================================================================== *)
(** ** [ask_ai_for_score_and_advice] *)
(* ================================================================== *)

Lemma ask_200 max body :
  ask_ai_for_score_and_advice max (ok_response body) =
  match re_search SCORE_PATTERN body with
  | Some m =>
      match int max (group 1 m) with
      | Return v => Return (v, strip (replace body (group 0 m) []))
      | Raised e => Return (0, error_prefix ++ exc_str e)
      end
  | None => Return (0, format_error ++ body)
  end.
Proof.
  unfold ask_ai_for_score_and_advice, judge_body, ok_response, bind, try_except.
  cbn [status_code text]. change (200 =? 200) with true. cbn iota.
  destruct (re_search SCORE_PATTERN body) as [m | ]; [ | reflexivity].
  destruct (int max (group 1 m)) as [v | e] eqn:E; [reflexivity | ].
  now rewrite (int_error_class max _ e E).
Qed.

Lemma ask_first_token max body pre ws ds post :
  body = pre ++ token ws ds ++ post ->
  spaces ws -> digits ds -> digits_end post ->
  (forall j ws' ds', (j < length pre)%nat -> ~ token_at body j ws' ds') ->
  ask_ai_for_score_and_advice max (ok_response body) =
  match int max ds with
  | Return v => Return (v, strip (replace body (token ws ds) []))
  | Raised e => Return (0, error_prefix ++ exc_str e)
  end.
Proof.
  intros Hb Hws Hds Hpost Hfirst.
  rewrite ask_200, (re_search_first body pre ws ds post) by assumption.
  reflexivity.
Qed.

Lemma return_fst {A B : Type} (a a' : A) (b b' : B) :
  @Return (A * B) (a, b) = Return (a', b') -> a = a'.
Proof. now intros [= -> _]. Qed.

(** A response, or an instance of [Exception], comes back as a pair. *)
Lemma ask_caught max reply :
  caught reply = true ->
  exists p, ask_ai_for_score_and_advice max reply = Return p.
Proof.
  destruct reply as [[status body] | e]; cbn [caught]; intros Hc.
  - unfold ask_ai_for_score_and_advice, judge_body, bind, try_except.
    cbn [status_code text].
    destruct (status =? 200); [ | eauto].
    destruct (re_search SCORE_PATTERN body) as [m | ]; [ | eauto].
    destruct (int max (group 1 m)) as [v | e] eqn:E; [eauto | ].
    rewrite (int_error_class max _ e E). eauto.
  - unfold ask_ai_for_score_and_advice, judge_body, bind, try_except.
    rewrite Hc. eauto.
Qed.

(** Whatever comes back has a score that is not negative. *)
Lemma ask_score_nonneg max reply score advice :
  ask_ai_for_score_and_advice max reply = Return (score, advice) -> 0 <= score.
Proof.
  destruct reply as [[status body] | e];
    unfold ask_ai_for_score_and_advice, judge_body, bind, try_except.
  - cbn [status_code text].
    destruct (status =? 200);
      [ | intros H; apply return_fst in H; lia].
    destruct (re_search SCORE_PATTERN body) as [m | ] eqn:Em;
      [ | intros H; apply return_fst in H; lia].
    apply re_search_token in Em
      as (ws & ds & (pre & post & _ & _ & _ & Hds) & _ & ->).
    destruct (digits_value_ok ds Hds) as (v & Hv & Hpos).
    rewrite (int_of_digits max ds v Hv).
    destruct (exceeds_limit max (length ds));
      intros H; apply return_fst in H; cbn in H; lia.
  - destruct (isinstance e "Exception"); [ | discriminate].
    intros H; apply return_fst in H; lia.
Qed.

Lemma match_at_head c s r : match_at (c :: s) = Some r -> c = 83.
Proof.
  destruct r as [t gs]. intros H.
  apply match_at_some in H as (ws & ds & post & E & _).
  rewrite token_app in E. now injection E.
Qed.

Lemma search_no_S : forall s n,
  Forall (fun c => c <> 83) s -> search_from SCORE_PATTERN n s = None.
Proof.
  induction s as [ | c s IH]; intros n H; rewrite search_from_eq, match_here_score.
  - reflexivity.
  - inversion H as [ | ? ? Hc Hs]; subst.
    destruct (match_at (c :: s)) as [r | ] eqn:E.
    + now apply match_at_head in E.
    + now apply IH.
Qed.

Lemma search_all_none ps : forall s n,
  (forall a b, s = a ++ b -> match_here ps b = None) ->
  search_from ps n s = None.
Proof.
  induction s as [ | c s IH]; intros n H; rewrite search_from_eq.
  - now rewrite (H [] []).
  - rewrite (H [] (c :: s)) by reflexivity. apply IH.
    intros a b ->. now apply (H (c :: a) b).
Qed.

Lemma token_at_match body j ws ds :
  token_at body j ws ds -> match_at (skipn j body) <> None.
Proof.
  intros (pre & post & -> & <- & Hws & Hds) H. rewrite skipn_app_length in H.
  eapply match_at_none; eauto.
Qed.

Lemma no_token_no_match rest a b :
  (forall i ws ds, ~ token_at rest i ws ds) ->
  rest = a ++ b -> match_at b = None.
Proof.
  intros Hfree ->. destruct (match_at b) as [[t gs] | ] eqn:E; [ | reflexivity].
  exfalso. apply match_at_some in E as (ws & ds & post & -> & _ & _ & Hws & Hds & _).
  apply (Hfree (length a) ws ds). now exists a, post.
Qed.

(* ================================================================== *)
(** ** The remote judge client: statements *)
(* ================================================================== *)

(** C1, as stated, fails: the pattern lets blanks stand between the prefix
    and the digits. With the prefix read as [SCORE:], the body
    [SCORE: 7 SCORE:83] has its first prefix-then-digits at index 9 with
    digits 83, and the judge answers 7; with the prefix read as [SCORE: ]
    (one blank), the body [SCORE:5 SCORE: 83] has it at index 8 with digits
    83, and the judge answers 5. *)
Lemma prefix_then_digits_counterexample :
  ~ stated_parse (lit "SCORE:") (lit "SCORE: 7 SCORE:83") /\
  ~ stated_parse (lit "SCORE: ") (lit "SCORE:5 SCORE: 83").
Proof.
  split; intros H.
  - destruct (H 9%nat (lit "83")) as (score & advice & Hv & Hj);
      [vm_compute; reflexivity | ].
    vm_compute in Hv, Hj. congruence.
  - destruct (H 8%nat (lit "83")) as (score & advice & Hv & Hj);
      [vm_compute; reflexivity | ].
    vm_compute in Hv, Hj. congruence.
Qed.

(** C1, amended: when the first place of an HTTP-200 body at which [SCORE:],
    any blanks and one or more decimal digits stand in a row is
    [pre ++ SCORE: ++ ws ++ ds ++ post], the digits [ds] running to their
    end and being within the interpreter's digit limit, the score is the
    number [ds] writes and the advice is the body with every occurrence of
    the matched text [SCORE: ++ ws ++ ds] replaced by nothing, then
    stripped. *)
Theorem first_score_token_is_parsed max body pre ws ds post :
  body = pre ++ token ws ds ++ post ->
  spaces ws -> digits ds -> digits_end post ->
  (forall j ws' ds', (j < length pre)%nat -> ~ token_at body j ws' ds') ->
  exceeds_limit max (length ds) = false ->
  exists score,
    digits_value ds = Some score /\
    ask_ai_for_score_and_advice max (ok_response body)
    = Return (score, strip (replace body (token ws ds) [])).
Proof.
  intros Hb Hws Hds Hpost Hfirst Hlim.
  destruct (digits_value_ok ds Hds) as (v & Hv & _). exists v. split; [exact Hv | ].
  rewrite (ask_first_token max body pre ws ds post) by assumption.
  now rewrite (int_of_digits max ds v Hv), Hlim.
Qed.

Lemma first_score_token_is_parsed_witness :
  exists score,
    digits_value (lit "83") = Some score /\
    ask_ai_for_score_and_advice 4300 (ok_response (lit "Result SCORE:  83 ok SCORE:  83"))
    = Return (score, strip (replace (lit "Result SCORE:  83 ok SCORE:  83")
                                    (token (lit "  ") (lit "83")) [])).
Proof.
  apply (first_score_token_is_parsed 4300 (lit "Result SCORE:  83 ok SCORE:  83")
           (lit "Result ") (lit "  ") (lit "83") (lit " ok SCORE:  83")).
  - reflexivity.
  - reflexivity.
  - split; [discriminate | reflexivity].
  - reflexivity.
  - intros j ws' ds' Hj Ht. apply token_at_match in Ht.
    do 7 (destruct j as [ | j]; [apply Ht; vm_compute; reflexivity | ]).
    change (length (lit "Result ")) with 7%nat in Hj. lia.
  - reflexivity.
Defined.

(** C2, as stated, fails: [except Exception] handles instances of
    [Exception] only. A [KeyboardInterrupt] that comes out of the remote
    call is none, and goes through the function to its caller. *)
Lemma interrupt_escapes_counterexample :
  ask_ai_for_score_and_advice default_max_str_digits (Raised KeyboardInterrupt)
  = Raised KeyboardInterrupt /\
  ~ stated_never_raises default_max_str_digits.
Proof.
  split; [reflexivity | ].
  intros H. destruct (H (Raised KeyboardInterrupt)) as (score & advice & E).
  discriminate E.
Qed.

(** C2, amended: when the remote call gives a response or raises an
    instance of [Exception], the judge returns a pair; a status other than
    200 gives score 0 and the fixed connection message; an instance of
    [Exception] raised by the call, or anywhere else inside the [try]
    block, gives score 0 and [Error: ] followed by its description; and
    the judge raises exactly when the call raised an exception that is not
    an instance of [Exception], which it passes on unchanged. *)
Theorem judge_catches_every_Exception max :
  (forall reply, caught reply = true ->
      exists score advice,
        ask_ai_for_score_and_advice max reply = Return (score, advice)) /\
  (forall status body, status <> 200 ->
      ask_ai_for_score_and_advice max
        (Return {| status_code := status; text := body |})
      = Return (0, connection_error)) /\
  (forall e, isinstance e "Exception" = true ->
      ask_ai_for_score_and_advice max (Raised e)
      = Return (0, error_prefix ++ exc_str e)) /\
  (forall reply e, judge_body max reply = Raised e ->
      isinstance e "Exception" = true ->
      ask_ai_for_score_and_advice max reply
      = Return (0, error_prefix ++ exc_str e)) /\
  (forall reply e,
      ask_ai_for_score_and_advice max reply = Raised e
      <-> reply = Raised e /\ isinstance e "Exception" = false).
Proof.
  split; [ | split; [ | split; [ | split]]].
  - intros reply Hc. destruct (ask_caught max reply Hc) as ([score advice] & E).
    eauto.
  - intros status body Hs.
    unfold ask_ai_for_score_and_advice, judge_body, bind, try_except.
    cbn [status_code]. apply Z.eqb_neq in Hs. now rewrite Hs.
  - intros e He. unfold ask_ai_for_score_and_advice, judge_body, bind, try_except.
    now rewrite He.
  - intros reply e H He. unfold ask_ai_for_score_and_advice, try_except.
    now rewrite H, He.
  - intros reply e. split.
    + destruct (caught reply) eqn:Hc.
      * destruct (ask_caught max reply Hc) as (p & E). now rewrite E.
      * destruct reply as [r | e']; [discriminate Hc | ].
        cbn [caught] in Hc.
        unfold ask_ai_for_score_and_advice, judge_body, bind, try_except.
        rewrite Hc. now intros [= ->].
    + intros [-> He].
      unfold ask_ai_for_score_and_advice, judge_body, bind, try_except.
      now rewrite He.
Qed.

Lemma judge_catches_every_Exception_witness :
  ask_ai_for_score_and_advice 4300
    (Raised {| exc_class := "ConnectionError";
               exc_bases := ["RequestException"; "OSError"; "Exception";
                             "BaseException"; "object"]%string;
               exc_str := lit "Max retries exceeded" |})
  = Return (0, error_prefix ++ lit "Max retries exceeded").
Proof.
  apply (proj1 (proj2 (proj2 (judge_catches_every_Exception 4300)))). reflexivity.
Defined.

(** C4: the body [SCORE: 83], a line break, [인생 잘 사네요] gives score 83
    and the advice [인생 잘 사네요] with nothing around it, whatever the digit
    limit. *)
Theorem judge_well_formed_example max :
  ask_ai_for_score_and_advice max
    (ok_response (lit "SCORE: 83" ++ [10] ++ lit "인생 잘 사네요"))
  = Return (83, lit "인생 잘 사네요").
Proof.
  rewrite ask_200.
  change (re_search SCORE_PATTERN (lit "SCORE: 83" ++ [10] ++ lit "인생 잘 사네요"))
    with (Some (Match 0 (lit "SCORE: 83") [lit "83"])).
  cbn [group nth m_groups]. unfold int.
  change (digits_value (lit "83")) with (Some 83).
  change (length (lit "83")) with 2%nat.
  unfold exceeds_limit. change (max_str_digits_threshold <? 2)%nat with false.
  reflexivity.
Qed.

(** C5: when no score token stands anywhere in an HTTP-200 body, the score
    is 0 and the advice is the format message followed by the whole body. *)
Theorem missing_token_gives_zero max body :
  (forall i ws ds, ~ token_at body i ws ds) ->
  ask_ai_for_score_and_advice max (ok_response body)
  = Return (0, format_error ++ body)
  /\ contains (format_error ++ body) body = true.
Proof.
  intros H. rewrite ask_200, re_search_none by exact H. split; [reflexivity | ].
  apply contains_occurs. exists format_error, []. now rewrite app_nil_r.
Qed.

Lemma missing_token_gives_zero_witness :
  ask_ai_for_score_and_advice 4300 (ok_response (lit "I refuse to evaluate this."))
  = Return (0, format_error ++ lit "I refuse to evaluate this.")
  /\ contains (format_error ++ lit "I refuse to evaluate this.")
              (lit "I refuse to evaluate this.") = true.
Proof.
  apply (missing_token_gives_zero 4300 (lit "I refuse to evaluate this.")).
  intros i ws ds Ht. apply re_search_complete in Ht. apply Ht.
  vm_compute. reflexivity.
Defined.

(** C6, as stated, fails: under the default limit of 4300 digits a token of
    4301 digits matches, writes a number above 100, and comes back as score
    0 with the [ValueError] text. *)
Lemma huge_score_rejected_counterexample :
  ~ stated_pass_through default_max_str_digits (score_prefix ++ repeat 49 4301).
Proof.
  assert (Hs : re_search SCORE_PATTERN (score_prefix ++ repeat 49 4301)
               = Some (Match 0 (score_prefix ++ repeat 49 4301) [repeat 49 4301]))
    by (vm_compute; reflexivity).
  assert (Hd : digits_value (group 1 (Match 0 (score_prefix ++ repeat 49 4301)
                                            [repeat 49 4301]))
               = Some ((10 ^ 4301 - 1) / 9))
    by (vm_compute; reflexivity).
  assert (Hbig : 100 < (10 ^ 4301 - 1) / 9) by (vm_compute; reflexivity).
  assert (Hj : ask_ai_for_score_and_advice default_max_str_digits
                 (ok_response (score_prefix ++ repeat 49 4301))
               = Return (0, error_prefix ++ exc_str (limit_error 4300 4301)))
    by (vm_compute; reflexivity).
  revert Hd Hbig. generalize ((10 ^ 4301 - 1) / 9). intros v Hd Hbig H.
  destruct (H _ v Hs Hd (or_intror Hbig)) as [advice Ha].
  rewrite Hj in Ha. injection Ha as Hz _. lia.
Qed.

(** C6, amended: when the matched token of an HTTP-200 body writes a number
    outside 0-100 and its digit run is within the interpreter's digit limit
    (always so for at most 640 digits, and for at most 4300 by default),
    that number is the score, unchanged. *)
Theorem out_of_range_score_passed_through max body m v :
  re_search SCORE_PATTERN body = Some m ->
  digits_value (group 1 m) = Some v ->
  v < 0 \/ 100 < v ->
  exceeds_limit max (length (group 1 m)) = false ->
  exists advice,
    ask_ai_for_score_and_advice max (ok_response body) = Return (v, advice).
Proof.
  intros Hm Hv _ Hlim. rewrite ask_200, Hm, (int_of_digits max _ v Hv), Hlim.
  eauto.
Qed.

Lemma out_of_range_score_passed_through_witness :
  exists advice,
    ask_ai_for_score_and_advice 4300 (ok_response (lit "SCORE: 250 wow"))
    = Return (250, advice).
Proof.
  apply (out_of_range_score_passed_through 4300 (lit "SCORE: 250 wow")
           (Match 0 (lit "SCORE: 250") [lit "250"]) 250).
  - vm_compute. reflexivity.
  - reflexivity.
  - right. lia.
  - reflexivity.
Defined.

(** C9: on every path on which the judge returns, the score is an integer
    that is not negative, and it returns for every response and for every
    instance of [Exception] raised by the call; and a body that starts
    with [SCORE:], blanks and a minus sign, such as [SCORE: -10], and has
    no score token after the minus sign, does not match and is answered as
    malformed, score 0. *)
Theorem score_never_negative max :
  (forall reply score advice,
      ask_ai_for_score_and_advice max reply = Return (score, advice) ->
      0 <= score) /\
  (forall reply, caught reply = true ->
      exists score advice,
        ask_ai_for_score_and_advice max reply = Return (score, advice)
        /\ 0 <= score) /\
  (forall ws rest, spaces ws ->
      (forall i ws' ds', ~ token_at rest i ws' ds') ->
      re_search SCORE_PATTERN (score_prefix ++ ws ++ 45 :: rest) = None /\
      ask_ai_for_score_and_advice max (ok_response (score_prefix ++ ws ++ 45 :: rest))
      = Return (0, format_error ++ score_prefix ++ ws ++ 45 :: rest)).
Proof.
  split; [exact (ask_score_nonneg max) | split].
  - intros reply Hc. destruct (ask_caught max reply Hc) as ([score advice] & E).
    exists score, advice. split; [exact E | ].
    exact (ask_score_nonneg max reply score advice E).
  - intros ws rest Hws Hfree.
    assert (Hnone : re_search SCORE_PATTERN (score_prefix ++ ws ++ 45 :: rest) = None).
    { unfold re_search. rewrite search_from_eq, match_here_score.
      assert (E : match_at (score_prefix ++ ws ++ 45 :: rest) = None).
      { unfold match_at. rewrite startswith_app, skipn_app_length.
        destruct (take_while_app isspace ws (45 :: rest) Hws) as [_ ->];
          [reflexivity | ].
        reflexivity. }
      rewrite E.
      change (score_prefix ++ ws ++ 45 :: rest)
        with (83 :: (lit "CORE:" ++ ws ++ [45] ++ rest)).
      rewrite !app_assoc, search_skip.
      - apply search_all_none. intros a b Hab. rewrite match_here_score.
        now apply (no_token_no_match rest a b).
      - intros a b Hab Hb. rewrite match_here_score.
        destruct b as [ | c b]; [easy | ].
        destruct (match_at ((c :: b) ++ rest)) as [r | ] eqn:Er; [ | reflexivity].
        exfalso. apply match_at_head in Er. subst c.
        pose proof (eq_ind_r (fun l => In 83 l) (in_elt 83 a b) Hab) as Hin.
        cbn beta in Hin.
        apply in_app_or in Hin as [Hin | Hin].
        + apply in_app_or in Hin as [Hin | Hin].
          * vm_compute in Hin. intuition discriminate.
          * unfold spaces in Hws. rewrite forallb_forall in Hws.
            now apply Hws, isspace_not_S in Hin.
        + cbn in Hin. intuition discriminate. }
    split; [exact Hnone | ]. now rewrite ask_200, Hnone.
Qed.

Lemma score_never_negative_witness :
  re_search SCORE_PATTERN (lit "SCORE: -10 is what you get") = None /\
  ask_ai_for_score_and_advice 4300 (ok_response (lit "SCORE: -10 is what you get"))
  = Return (0, format_error ++ lit "SCORE: -10 is what you get").
Proof.
  apply (proj2 (proj2 (score_never_negative 4300))
           (lit " ") (lit "10 is what you get")).
  - reflexivity.
  - intros i ws ds Ht. apply re_search_complete in Ht. apply Ht.
    vm_compute. reflexivity.
Defined.

(** C10, as stated, fails: in the body [SCSCORE:1ORE:1 SCORE:1] the matched
    text [SCORE:1] occurs twice; deleting both occurrences splices [SC] and
    [ORE:1] together, and the advice is [SCORE:1], the matched text itself. *)
Lemma spliced_token_counterexample :
  ~ stated_absent (lit "SCSCORE:1ORE:1 SCORE:1").
Proof.
  intros H.
  specialize (H (Match 2 (lit "SCORE:1") [lit "1"]) 1 (lit "SCORE:1")).
  assert (E : contains (lit "SCORE:1") (lit "SCORE:1") = false).
  { apply H.
    - vm_compute. reflexivity.
    - exists (lit "SC"), (lit "ORE:1 "), []. reflexivity.
    - vm_compute. reflexivity. }
  vm_compute in E. discriminate E.
Qed.

(** C10, amended: when the pattern matches, the advice is the body with
    every occurrence of the matched text deleted in one pass from the left,
    then stripped: for a body that is pieces free of the matched text joined
    by it, the advice is the stripped concatenation of the pieces (the digit
    run being within the interpreter's limit). What is deleted is not looked
    at again: the advice is free of the matched text when the concatenation
    of the pieces is. *)
Theorem advice_deletes_every_occurrence max body m pieces :
  re_search SCORE_PATTERN body = Some m ->
  body = join (group 0 m) pieces ->
  Forall (fun p => contains p (group 0 m) = false) pieces ->
  exceeds_limit max (length (group 1 m)) = false ->
  exists score,
    ask_ai_for_score_and_advice max (ok_response body)
    = Return (score, strip (concat pieces)) /\
    (contains (concat pieces) (group 0 m) = false ->
     contains (strip (concat pieces)) (group 0 m) = false).
Proof.
  intros Hm Hb Hpieces Hlim.
  destruct (re_search_token body m Hm) as (ws & ds & (pre & post & _ & _ & Hws & Hds) & E0 & E1).
  destruct (digits_value_ok ds Hds) as (v & Hv & _).
  destruct (token_first_char_unique ws ds Hws Hds) as (t & Et & Ht).
  exists v. split.
  - rewrite ask_200, Hm, E1, (int_of_digits max ds v Hv).
    rewrite E1 in Hlim. rewrite Hlim. do 2 f_equal.
    rewrite Hb, E0, Et. f_equal. apply replace_join; [exact Ht | ].
    rewrite E0, Et in Hpieces.
    eapply List.Forall_impl; [ | exact Hpieces].
    intros p Hp. now apply not_contains_occurs.
  - intros Hfree. destruct (contains (strip (concat pieces)) (group 0 m)) eqn:E;
      [ | reflexivity].
    apply contains_occurs, occurs_strip, contains_occurs in E. congruence.
Qed.

Lemma advice_deletes_every_occurrence_witness :
  exists score,
    ask_ai_for_score_and_advice 4300 (ok_response (lit "well SCORE: 61 done SCORE: 61 bye"))
    = Return (score, strip (concat [lit "well "; lit " done "; lit " bye"])) /\
    (contains (concat [lit "well "; lit " done "; lit " bye"]) (lit "SCORE: 61") = false ->
     contains (strip (concat [lit "well "; lit " done "; lit " bye"])) (lit "SCORE: 61") = false).
Proof.
  apply (advice_deletes_every_occurrence 4300
           (lit "well SCORE: 61 done SCORE: 61 bye")
           (Match 5 (lit "SCORE: 61") [lit "61"])
           [lit "well "; lit " done "; lit " bye"]).
  - vm_compute. reflexivity.
  - reflexivity.
  - repeat constructor.
  - reflexivity.
Defined.

(* ================================================================== *)
(** ** The visualisation engine: statements *)
(* ================================================================== *)

(** Among floats that are not below zero, being above zero is being
    different from zero. *)
Lemma nonneg_positive h :
  (0 <=? h)%float = true -> (0 <? h)%float = negb (h =? 0)%float.
Proof.
  rewrite FloatAxioms.leb_spec, FloatAxioms.ltb_spec, FloatAxioms.eqb_spec.
  change (Prim2SF 0) with (S754_zero false).
  destruct (Prim2SF h) as [s | s | | s m e]; try destruct s; cbn; congruence.
Qed.

(** What [Axes.bar] stores for a height: the height, a zero without its
    sign. *)
Lemma convert_dx_zero h : convert_dx h 0 = unsigned_zero h.
Proof.
  apply FloatAxioms.Prim2SF_inj. unfold convert_dx, unsigned_zero.
  rewrite FloatAxioms.sub_spec, FloatAxioms.add_spec, FloatAxioms.eqb_spec.
  change (Prim2SF 0) with (S754_zero false).
  destruct (Prim2SF h) as [s | s | | s m e] eqn:E; try destruct s; cbn;
    try (symmetry; exact E); reflexivity.
Qed.

Lemma unsigned_zero_positive h :
  (0 <? unsigned_zero h)%float = (0 <? h)%float.
Proof.
  unfold unsigned_zero. destruct (h =? 0)%float eqn:E; [ | reflexivity].
  rewrite FloatAxioms.eqb_spec in E. rewrite !FloatAxioms.ltb_spec.
  change (Prim2SF 0) with (S754_zero false) in *.
  destruct (Prim2SF h) as [s | s | | s m e]; try destruct s; cbn in *;
    congruence.
Qed.

Lemma unsigned_zero_of_positive h :
  (0 <? h)%float = true -> unsigned_zero h = h.
Proof.
  unfold unsigned_zero. intros H. destruct (h =? 0)%float eqn:E; [ | reflexivity].
  rewrite FloatAxioms.eqb_spec in E. rewrite FloatAxioms.ltb_spec in H.
  change (Prim2SF 0) with (S754_zero false) in *.
  destruct (Prim2SF h) as [s | s | | s m e]; try destruct s; cbn in *;
    congruence.
Qed.

Lemma unsigned_zero_nonnegative h :
  nonnegative h -> nonnegative (unsigned_zero h).
Proof.
  unfold unsigned_zero, nonnegative. intros H.
  now destruct (h =? 0)%float.
Qed.

Lemma SFeqb_refl x : x <> S754_nan -> SFeqb x x = true.
Proof.
  unfold SFeqb. destruct x as [s | s | | s m e]; try easy; intros _; cbn.
  - now destruct s.
  - rewrite Z.compare_refl, Pos.compare_cont_refl. now destruct s.
Qed.

(** A bar is as high as the hours given, in the sense of [==]. *)
Lemma unsigned_zero_equal h :
  nonnegative h -> (unsigned_zero h =? h)%float = true.
Proof.
  unfold unsigned_zero, nonnegative. intros H.
  destruct (h =? 0)%float eqn:E.
  - rewrite FloatAxioms.eqb_spec in *.
    change (Prim2SF 0) with (S754_zero false) in *.
    destruct (Prim2SF h) as [s | s | | s m e]; try destruct s; cbn in *;
      congruence.
  - rewrite FloatAxioms.eqb_spec. apply SFeqb_refl.
    rewrite FloatAxioms.leb_spec in H. intros En. rewrite En in H.
    discriminate H.
Qed.

Lemma ax_bar_dict (d : dict float) :
  ax_bar (keys d) (values d)
         (map (fun cat => COLORS_get cat "#95A5A6") (keys d))
  = map bar_of d.
Proof.
  unfold keys, values.
  induction d as [ | [k v] d IH]; cbn [map fst snd ax_bar]; [reflexivity | ].
  now rewrite IH, convert_dx_zero.
Qed.

Lemma labels_of_bars (data : dict float) :
  flat_map (fun b => if (0 <? bar_height b)%float
                     then [{| text_bar := bar_x b;
                              text_y := (bar_height b + 0.5)%float;
                              text_hours := bar_height b |}]
                     else [])
           (map bar_of data)
  = map label_of (positive_hours data).
Proof.
  induction data as [ | [category hours] data IH]; [reflexivity | ].
  unfold positive_hours in *.
  cbn [map flat_map List.filter bar_of bar_height bar_x fst snd].
  rewrite IH, unsigned_zero_positive.
  destruct (0 <? hours)%float eqn:E; [ | reflexivity].
  now rewrite (unsigned_zero_of_positive hours E).
Qed.

(** The chart of any dict: a bar for every entry, a label for every entry
    with hours above zero. *)
Lemma bar_chart_parts (data : dict float) :
  fig_bars (create_bar_chart data) = map bar_of data /\
  fig_texts (create_bar_chart data) = map label_of (positive_hours data).
Proof.
  unfold create_bar_chart. cbn [fig_bars fig_texts].
  rewrite ax_bar_dict. split; [reflexivity | apply labels_of_bars].
Qed.

(** For hours that are not below zero the labelled entries are those whose
    bar is not zero high, and the label of an entry is the label of its
    bar. *)
Lemma labels_on_bars (data : dict float) :
  Forall nonnegative (values data) ->
  map label_of (positive_hours data)
  = map label_on
        (List.filter (fun b => negb (bar_height b =? 0)%float)
                     (map bar_of data)).
Proof.
  unfold values, positive_hours.
  induction data as [ | [category hours] data IH]; intros H; [reflexivity | ].
  cbn [map snd] in H. apply List.Forall_cons_iff in H as [Hh H].
  cbn [map List.filter bar_of bar_height snd].
  rewrite <- nonneg_positive by now apply unsigned_zero_nonnegative.
  rewrite unsigned_zero_positive.
  destruct (0 <? hours)%float eqn:E; [ | now apply IH].
  cbn [map]. rewrite (IH H). f_equal.
  unfold label_on, label_of, bar_of. cbn [bar_x bar_height fst snd].
  now rewrite (unsigned_zero_of_positive hours E).
Qed.

(** C8: for hour values none of which is below zero, the chart has exactly
    one bar per category, in the order of the categories, as high as the
    hours given (a zero is stored without its sign, any other value bit
    for bit); and the labels are, in order, those of the bars whose height
    is not zero, each centred on its bar, 0.5 above its top and reading
    its height: a bar has no label exactly when its height is zero. *)
Theorem bar_chart_bars_and_labels (r : RoutineInput) :
  Forall nonnegative (values (input_data r)) ->
  Forall2 (fun b kv => bar_x b = fst kv /\
                       (bar_height b =? snd kv)%float = true /\
                       bar_height b = unsigned_zero (snd kv))
          (fig_bars (create_bar_chart (input_data r))) (input_data r) /\
  fig_texts (create_bar_chart (input_data r))
  = map label_on
        (List.filter (fun b => negb (bar_height b =? 0)%float)
                     (fig_bars (create_bar_chart (input_data r)))).
Proof.
  intros Hpos. destruct (bar_chart_parts (input_data r)) as [-> ->].
  split; [ | now apply labels_on_bars].
  cbn [values input_data map snd] in Hpos.
  repeat match goal with
         | H : Forall _ (_ :: _) |- _ =>
             apply List.Forall_cons_iff in H as [? H]
         end.
  cbn [input_data map]. unfold bar_of. cbn [fst snd].
  repeat constructor; cbn [bar_x bar_height]; now apply unsigned_zero_equal.
Qed.

Lemma bar_chart_bars_and_labels_witness :
  let r := {| sleep := 7; study := 6; screen := 0; exercise := 1; social := 2 |} in
  Forall2 (fun b kv => bar_x b = fst kv /\
                       (bar_height b =? snd kv)%float = true /\
                       bar_height b = unsigned_zero (snd kv))
          (fig_bars (create_bar_chart (input_data r))) (input_data r) /\
  fig_texts (create_bar_chart (input_data r))
  = map label_on
        (List.filter (fun b => negb (bar_height b =? 0)%float)
                     (fig_bars (create_bar_chart (input_data r)))).
Proof.
  apply (bar_chart_bars_and_labels
           {| sleep := 7; study := 6; screen := 0; exercise := 1; social := 2 |}).
  repeat constructor.
Defined.

Lemma draw_sections_spec (data : dict float) : forall items x drawn,
  exists segments x_end,
    draw_sections (width / denominator data)%float items x drawn
    = (x_end, drawn ++ segments) /\
    Forall2 (section_of data) (positive_hours items) segments /\
    chained x segments x_end.
Proof.
  induction items as [ | [category hours] items IH]; intros x drawn.
  - exists [], x. cbn. rewrite app_nil_r. repeat split. constructor.
  - unfold positive_hours. cbn [draw_sections List.filter snd].
    destruct (0 <? hours)%float eqn:E.
    + edestruct IH as (segments & x_end & -> & Hsegs & Hchain).
      eexists (_ :: segments), x_end. rewrite <- app_assoc. cbn [app].
      repeat split; [ | exact Hchain].
      constructor; [now repeat split | exact Hsegs].
    + apply IH.
Qed.

(** From a check of every position in a range to the statement about any
    position in it. *)
Lemma forallb_below (P : nat -> bool) (n : nat) :
  forallb P (seq 0 n) = true -> forall k, (k < n)%nat -> P k = true.
Proof.
  intros H k Hk. rewrite forallb_forall in H. apply H, in_seq. lia.
Qed.

Lemma add_exact_all :
  forallb (fun a => forallb (add_exact a) (seq 0 49)) (seq 0 193) = true.
Proof. vm_compute. reflexivity. Qed.

(** Sums of slider positions are exact. *)
Lemma half_hours_add a b :
  (a <= 192)%nat -> (b <= 48)%nat ->
  (half_hours a + half_hours b)%float = half_hours (a + b).
Proof.
  intros Ha Hb. apply FloatAxioms.Leibniz.eqb_spec.
  apply (forallb_below (add_exact a) 49); [ | lia].
  apply (forallb_below (fun a => forallb (add_exact a) (seq 0 49)) 193);
    [exact add_exact_all | lia].
Qed.




Lemma scale_check_all : forallb scale_check (seq 0 49) = true.
Proof. vm_compute. reflexivity. Qed.

Lemma width_check_all : forallb width_check (seq 0 49) = true.
Proof. vm_compute. reflexivity. Qed.

Lemma px_add_check_all :
  forallb (fun a => forallb (px_add_check a) (seq 0 49)) (seq 0 49) = true.
Proof. vm_compute. reflexivity. Qed.

Lemma positive_check_all : forallb positive_check (seq 0 49) = true.
Proof. vm_compute. reflexivity. Qed.

Lemma fill_check_all : forallb fill_check (seq 0 49) = true.
Proof. vm_compute. reflexivity. Qed.

Lemma over_check_all : forallb over_check (seq 0 241) = true.
Proof. vm_compute. reflexivity. Qed.

(** Up to 24 hours the scale is 50 pixels per hour. *)
Lemma scale_50 t :
  (t <= 48)%nat -> (width / py_max 24 (half_hours t))%float = 50%float.
Proof.
  intros H. apply FloatAxioms.Leibniz.eqb_spec.
  apply (forallb_below scale_check 49); [exact scale_check_all | lia].
Qed.

Lemma section_px k :
  (k <= 48)%nat -> (half_hours k * 50)%float = px (25 * k).
Proof.
  intros H. apply FloatAxioms.Leibniz.eqb_spec.
  apply (forallb_below width_check 49); [exact width_check_all | lia].
Qed.

Lemma px_add a b :
  (a <= 48)%nat -> (b <= 48)%nat ->
  (px (25 * a) + px (25 * b))%float = px (25 * (a + b)).
Proof.
  intros Ha Hb. apply FloatAxioms.Leibniz.eqb_spec.
  apply (forallb_below (px_add_check a) 49); [ | lia].
  apply (forallb_below (fun a => forallb (px_add_check a) (seq 0 49)) 49);
    [exact px_add_check_all | lia].
Qed.

Lemma half_hours_positive k :
  (k <= 48)%nat -> (0 <? half_hours k)%float = (0 <? k)%nat.
Proof.
  intros H. apply Bool.eqb_prop.
  apply (forallb_below positive_check 49); [exact positive_check_all | lia].
Qed.

Lemma fill_needed t :
  (t <= 48)%nat -> (px (25 * t) <? width)%float = (t <? 48)%nat.
Proof.
  intros H. apply Bool.eqb_prop.
  apply (forallb_below fill_check 49); [exact fill_check_all | lia].
Qed.

Lemma over_24_exact t :
  (t <= 240)%nat -> (24 <? half_hours t)%float = (48 <? t)%nat.
Proof.
  intros H. apply Bool.eqb_prop.
  apply (forallb_below over_check 241); [exact over_check_all | lia].
Qed.

Lemma total_positions_cons category k items :
  total_positions ((category, k) :: items) = (k + total_positions items)%nat.
Proof. reflexivity. Qed.

Lemma slider_dict_cons category k items :
  slider_dict ((category, k) :: items)
  = (category, half_hours k) :: slider_dict items.
Proof. reflexivity. Qed.

(** The hours of a day of at most 24 hours add up without rounding. *)
Lemma slider_sum items : forall acc,
  (acc + total_positions items <= 48)%nat ->
  fold_left PrimFloat.add (values (slider_dict items)) (half_hours acc)
  = half_hours (acc + total_positions items).
Proof.
  induction items as [ | [category k] items IH]; intros acc H.
  - change (total_positions []) with 0%nat.
    cbn [slider_dict values map fold_left]. now rewrite Nat.add_0_r.
  - rewrite total_positions_cons in *. rewrite slider_dict_cons.
    unfold values in *. cbn [map snd fold_left].
    rewrite half_hours_add by lia.
    rewrite IH by lia. f_equal. lia.
Qed.

(** At 50 pixels per hour the loop draws on whole pixels. *)
Lemma draw_exact items : forall start drawn,
  (start + total_positions items <= 48)%nat ->
  draw_sections 50 (slider_dict items) (px (25 * start)) drawn
  = (px (25 * (start + total_positions items)),
     drawn ++ exact_sections start items).
Proof.
  induction items as [ | [category k] items IH]; intros start drawn H.
  - change (total_positions []) with 0%nat.
    cbn [slider_dict map draw_sections exact_sections].
    now rewrite Nat.add_0_r, app_nil_r.
  - rewrite total_positions_cons in *. rewrite slider_dict_cons.
    cbn [draw_sections exact_sections].
    rewrite half_hours_positive by lia.
    destruct (Nat.ltb_spec 0 k) as [Hk | Hk].
    + rewrite section_px, px_add by lia. rewrite IH by lia.
      rewrite <- app_assoc. cbn [app].
      do 3 f_equal. lia.
    + rewrite IH by lia. do 3 f_equal. lia.
Qed.

(** *** The positions the loop reaches, for all slider positions at once *)


















(* ================================================================== *)
(** ** The Streamlit script: statements *)
(* ================================================================== *)

Lemma ask_verdict max ev :
  caught (reply ev) = true ->
  ask_ai_for_score_and_advice max (reply ev) = Return (verdict max ev).
Proof.
  intros Hc. unfold verdict.
  now destruct (ask_caught max (reply ev) Hc) as (p & ->).
Qed.

Lemma ask_escapes max reply :
  caught reply = false ->
  exists e, reply = Raised e /\ ask_ai_for_score_and_advice max reply = Raised e.
Proof.
  destruct reply as [r | e]; cbn [caught]; intros Hc; [discriminate | ].
  exists e. split; [reflexivity | ].
  unfold ask_ai_for_score_and_advice, judge_body, bind, try_except.
  now rewrite Hc.
Qed.











(* ================================================================== *)
(** ** The request: statements *)
(* ================================================================== *)

Ltac bool_to_Z :=
  repeat first [ rewrite orb_true_iff | rewrite andb_true_iff
               | rewrite orb_false_iff | rewrite andb_false_iff
               | rewrite Z.leb_le | rewrite Z.ltb_lt | rewrite Z.eqb_eq
               | rewrite Z.leb_gt | rewrite Z.ltb_ge | rewrite Z.eqb_neq ].

Ltac split_ltb :=
  repeat match goal with
         | |- context [?a <? ?b] => destruct (Z.ltb_spec a b)
         | |- context [?a <=? ?b] => destruct (Z.leb_spec a b)
         end.

Lemma land_ones_mod a n : 0 <= n -> Z.land a (2 ^ n - 1) = a mod 2 ^ n.
Proof.
  intros Hn. rewrite <- Z.land_ones by exact Hn. f_equal.
  rewrite Z.ones_equiv. lia.
Qed.

Lemma land_63 a : Z.land a 63 = a mod 64.
Proof. exact (land_ones_mod a 6 ltac:(lia)). Qed.

Lemma land_31 a : Z.land a 31 = a mod 32.
Proof. exact (land_ones_mod a 5 ltac:(lia)). Qed.

Lemma land_15 a : Z.land a 15 = a mod 16.
Proof. exact (land_ones_mod a 4 ltac:(lia)). Qed.

Lemma land_7 a : Z.land a 7 = a mod 8.
Proof. exact (land_ones_mod a 3 ltac:(lia)). Qed.

Lemma utf8_char_scalar c : utf8_char c = None <-> scalar c = false.
Proof.
  unfold utf8_char, scalar. split_ltb; cbn; split; intros; try easy; lia.
Qed.

Lemma utf8_char_bytes c bs :
  utf8_char c = Some bs -> Forall (fun b => 0 <= b < 256) bs.
Proof.
  unfold utf8_char. split_ltb; cbn; intros [= <-]; try discriminate;
    repeat constructor; Z.div_mod_to_equations; lia.
Qed.

(** Decoding reads back what the encoder wrote for one code point. *)
Lemma utf8_char_decode c bs rest :
  utf8_char c = Some bs -> utf8_go 0 0 (bs ++ rest) = c :: utf8_go 0 0 rest.
Proof.
  unfold utf8_char.
  destruct (Z.ltb_spec c 0); [discriminate | ].
  destruct (Z.ltb_spec c 128) as [H1 | H1].
  { intros [= <-]. cbn. now rewrite (proj2 (Z.ltb_lt c 128)). }
  destruct (Z.ltb_spec c 2048) as [H2 | H2].
  { intros [= <-]. cbn [app utf8_go].
    rewrite (proj2 (Z.ltb_ge (192 + c / 64) 128)),
            (proj2 (Z.ltb_lt (192 + c / 64) 224))
      by (Z.div_mod_to_equations; lia).
    rewrite land_31, land_63. f_equal. Z.div_mod_to_equations. lia. }
  destruct (Z.ltb_spec c 65536) as [H3 | H3].
  { destruct ((55296 <=? c) && (c <? 57344)); [discriminate | ].
    intros [= <-]. cbn [app utf8_go].
    rewrite (proj2 (Z.ltb_ge (224 + c / 4096) 128)),
            (proj2 (Z.ltb_ge (224 + c / 4096) 224)),
            (proj2 (Z.ltb_lt (224 + c / 4096) 240))
      by (Z.div_mod_to_equations; lia).
    rewrite land_15, !land_63. f_equal. Z.div_mod_to_equations. lia. }
  destruct (Z.ltb_spec c 1114112) as [H4 | H4]; [ | discriminate].
  intros [= <-]. cbn [app utf8_go].
  rewrite (proj2 (Z.ltb_ge (240 + c / 262144) 128)),
          (proj2 (Z.ltb_ge (240 + c / 262144) 224)),
          (proj2 (Z.ltb_ge (240 + c / 262144) 240))
    by (Z.div_mod_to_equations; lia).
  rewrite land_7, !land_63. f_equal. Z.div_mod_to_equations. lia.
Qed.

Lemma utf8_encode_bytes : forall s bs,
  utf8_encode s = Some bs -> Forall (fun b => 0 <= b < 256) bs.
Proof.
  induction s as [ | c s IH]; cbn; intros bs.
  - intros [= <-]. constructor.
  - destruct (utf8_char c) as [cs | ] eqn:Ec; [ | discriminate].
    destruct (utf8_encode s) as [rest | ]; [ | discriminate].
    intros [= <-]. apply Forall_app. split; [ | now apply IH].
    eapply utf8_char_bytes, Ec.
Qed.

Lemma utf8_round : forall s bs,
  utf8_encode s = Some bs -> utf8_go 0 0 bs = s.
Proof.
  induction s as [ | c s IH]; cbn; intros bs.
  - now intros [= <-].
  - destruct (utf8_char c) as [cs | ] eqn:Ec; [ | discriminate].
    destruct (utf8_encode s) as [rest | ]; [ | discriminate].
    intros [= <-]. rewrite (utf8_char_decode c cs rest Ec). f_equal. now apply IH.
Qed.

Lemma utf8_encode_scalar : forall s,
  utf8_encode s = None <-> forallb scalar s = false.
Proof.
  induction s as [ | c s IH]; cbn; [easy | ].
  destruct (utf8_char c) as [cs | ] eqn:Ec.
  - assert (Hc : scalar c = true).
    { destruct (scalar c) eqn:E; [reflexivity | ].
      apply utf8_char_scalar in E. congruence. }
    rewrite Hc. cbn. destruct (utf8_encode s); [ | exact IH].
    split; [discriminate | ]. intros H. apply IH in H. discriminate.
  - apply utf8_char_scalar in Ec. rewrite Ec. easy.
Qed.

Lemma always_safe_hex d : 0 <= d < 16 -> always_safe (hex_digit d) = true.
Proof.
  intros Hd. unfold always_safe, hex_digit.
  destruct (Z.ltb_spec d 10); bool_to_Z; lia.
Qed.

Lemma unhex_hex d : 0 <= d < 16 -> unhex (hex_digit d) = d.
Proof.
  intros Hd. unfold unhex, hex_digit.
  destruct (Z.ltb_spec d 10); split_ltb; lia.
Qed.

Lemma quote_byte_decode b rest :
  0 <= b < 256 ->
  unquote_to_bytes (quote_byte [47] b ++ rest) = b :: unquote_to_bytes rest.
Proof.
  intros Hb. unfold quote_byte.
  destruct (always_safe b || existsb (Z.eqb b) [47]) eqn:E.
  - cbn [app unquote_to_bytes].
    destruct (Z.eqb_spec b 37) as [-> | _]; [discriminate E | reflexivity].
  - cbn [app unquote_to_bytes]. change (37 =? 37) with true. cbn iota.
    rewrite !unhex_hex by (Z.div_mod_to_equations; lia).
    f_equal. Z.div_mod_to_equations. lia.
Qed.

Lemma quote_bytes_round : forall bs,
  Forall (fun b => 0 <= b < 256) bs ->
  unquote_to_bytes (quote_from_bytes bs [47]) = bs.
Proof.
  unfold quote_from_bytes. induction bs as [ | b bs IH]; intros H; [reflexivity | ].
  inversion H as [ | ? ? Hb Hbs]; subst. cbn [flat_map].
  rewrite quote_byte_decode by exact Hb. f_equal. now apply IH.
Qed.

Lemma quote_round s q : quote s = Some q -> unquote q = s.
Proof.
  unfold quote, unquote. destruct (utf8_encode s) as [bs | ] eqn:E; [ | discriminate].
  intros [= <-]. rewrite quote_bytes_round by (eapply utf8_encode_bytes, E).
  now apply utf8_round.
Qed.

Lemma quote_byte_chars b :
  0 <= b < 256 -> forallb url_char (quote_byte [47] b) = true.
Proof.
  intros Hb. unfold quote_byte.
  destruct (always_safe b || existsb (Z.eqb b) [47]) eqn:E.
  - cbn. rewrite andb_true_r. unfold url_char. cbn in E.
    rewrite orb_false_r in E. now rewrite E.
  - cbn [forallb]. unfold url_char.
    rewrite !always_safe_hex by (Z.div_mod_to_equations; lia). reflexivity.
Qed.

Lemma quote_chars s q : quote s = Some q -> forallb url_char q = true.
Proof.
  unfold quote. destruct (utf8_encode s) as [bs | ] eqn:E; [ | discriminate].
  intros [= <-]. apply utf8_encode_bytes in E. unfold quote_from_bytes.
  induction E as [ | b bs Hb _ IH]; [reflexivity | ].
  cbn [flat_map]. now rewrite forallb_app, quote_byte_chars, IH.
Qed.

(** X1: whatever text [quote] encodes, the result is made of ASCII letters,
    digits, [_ . - ~ /] and [%] only: no blank, no line break, no character
    outside ASCII reaches the URL. *)
Theorem quote_url_chars s q :
  quote s = Some q -> forallb url_char q = true.
Proof. exact (quote_chars s q). Qed.

Lemma quote_url_chars_witness :
  forallb url_char
    (lit "%EC%9E%A0%20a/b%0A") = true.
Proof.
  apply (quote_url_chars ([51104; 32; 97; 47; 98; 10]) (lit "%EC%9E%A0%20a/b%0A")).
  vm_compute. reflexivity.
Defined.

(** X2: [quote] loses nothing: two texts with the same quoted form are the
    same text. *)
Theorem quote_injective s1 s2 q :
  quote s1 = Some q -> quote s2 = Some q -> s1 = s2.
Proof.
  intros H1 H2. apply quote_round in H1, H2. congruence.
Qed.

Lemma quote_injective_witness :
  lit "a b" = [97; 32; 98].
Proof.
  apply (quote_injective (lit "a b") [97; 32; 98] (lit "a%20b"));
    vm_compute; reflexivity.
Defined.

(** X3: [quote] fails, with the encoder's [UnicodeEncodeError], exactly on
    the texts that hold a surrogate (or a number that is no code point);
    on every other text it returns. *)
Theorem quote_fails_on_surrogates s :
  quote s = None <-> forallb scalar s = false.
Proof.
  unfold quote. rewrite <- utf8_encode_scalar.
  destruct (utf8_encode s); easy.
Qed.

Lemma prompt_split fmt data :
  prompt fmt data = prompt_head ++ data_str fmt data ++ prompt_tail.
Proof.
  unfold prompt, template_line, prompt_head. rewrite <- !app_assoc.
  do 3 f_equal.
Qed.

Lemma prompt_scalar fmt data :
  forallb scalar (data_str fmt data) = true ->
  forallb scalar (prompt fmt data) = true.
Proof.
  intros H. rewrite prompt_split, !forallb_app, H.
  assert (Hh : forallb scalar prompt_head = true) by (vm_compute; reflexivity).
  assert (Ht : forallb scalar prompt_tail = true) by (vm_compute; reflexivity).
  now rewrite Hh, Ht.
Qed.

Lemma data_str_scalar fmt (r : RoutineInput) :
  (forall v, forallb scalar (fmt v) = true) ->
  forallb scalar (data_str fmt (input_data r)) = true.
Proof.
  intros Hfmt. unfold data_str.
  cbn [input_data map str_join fst snd]. rewrite !forallb_app, !Hfmt.
  reflexivity.
Qed.

(** X4: for the five sliders, when floats are written without surrogates
    (as the interpreter does), the URL is built without an error, is the
    fixed origin followed by the quoted prompt, which is plain URL
    characters, and the function as a whole answers what the judge makes
    of the service's reply to that URL. *)
Theorem api_url_well_formed fmt (r : RoutineInput) :
  (forall v, forallb scalar (fmt v) = true) ->
  exists q,
    quote (prompt fmt (input_data r)) = Some q /\
    api_url fmt (input_data r) = Some (base_url ++ q) /\
    forallb url_char q = true /\
    forall max get,
      ask_remote fmt max get (input_data r)
      = Some (ask_ai_for_score_and_advice max (get (base_url ++ q))).
Proof.
  intros Hfmt.
  destruct (quote (prompt fmt (input_data r))) as [q | ] eqn:E.
  - exists q. unfold ask_remote, api_url. rewrite E.
    repeat split. now apply quote_chars in E.
  - exfalso. unfold quote in E.
    destruct (utf8_encode (prompt fmt (input_data r))) eqn:Eu; [discriminate | ].
    apply utf8_encode_scalar in Eu.
    rewrite prompt_scalar in Eu; [discriminate | ].
    now apply data_str_scalar.
Qed.

Lemma api_url_well_formed_witness :
  exists q,
    quote (prompt (fun _ => lit "7.0")
             (input_data {| sleep := 7; study := 7; screen := 7;
                            exercise := 7; social := 7 |})) = Some q /\
    api_url (fun _ => lit "7.0")
      (input_data {| sleep := 7; study := 7; screen := 7;
                     exercise := 7; social := 7 |}) = Some (base_url ++ q) /\
    forallb url_char q = true /\
    forall max get,
      ask_remote (fun _ => lit "7.0") max get
        (input_data {| sleep := 7; study := 7; screen := 7;
                       exercise := 7; social := 7 |})
      = Some (ask_ai_for_score_and_advice max (get (base_url ++ q))).
Proof.
  apply (api_url_well_formed (fun _ => lit "7.0")). intros v. reflexivity.
Defined.

(** X5: the URL determines the data sent: two inputs that lead to the same
    URL have the same serialised data string. *)
Theorem api_url_determines_data fmt d1 d2 url :
  api_url fmt d1 = Some url -> api_url fmt d2 = Some url ->
  data_str fmt d1 = data_str fmt d2.
Proof.
  unfold api_url. intros H1 H2.
  destruct (quote (prompt fmt d1)) as [q1 | ] eqn:E1; [ | discriminate].
  destruct (quote (prompt fmt d2)) as [q2 | ] eqn:E2; [ | discriminate].
  injection H1 as <-. injection H2 as ->.
  apply quote_round in E1, E2. rewrite E1, !prompt_split in E2.
  apply app_inv_head in E2. now apply app_inv_tail in E2.
Qed.

Lemma api_url_determines_data_witness :
  data_str (fun _ => lit "7.0") [("Sleep"%string, 7%float)]
  = data_str (fun _ => lit "7.0") [("Sleep"%string, 0.5%float)].
Proof.
  destruct (api_url (fun _ => lit "7.0") [("Sleep"%string, 7%float)])
    as [url | ] eqn:E.
  - apply (api_url_determines_data (fun _ => lit "7.0")
             [("Sleep"%string, 7%float)] [("Sleep"%string, 0.5%float)] url).
    + exact E.
    + rewrite <- E. reflexivity.
  - reflexivity.
Defined.

(* ================================================================== *)
(** ** The remote judge client: further statements *)
(* ================================================================== *)

Lemma lstrip_blanks s : exists l, s = l ++ lstrip s /\ forallb isspace l = true.
Proof.
  induction s as [ | c s (l & IH & Hl)]; cbn [lstrip]; [now exists [] | ].
  destruct (isspace c) eqn:E; [ | now exists []].
  exists (c :: l). cbn [forallb app]. rewrite E, Hl. split; [now f_equal | reflexivity].
Qed.

Lemma lstrip_head s :
  match lstrip s with c :: _ => isspace c = false | [] => True end.
Proof.
  induction s as [ | c s IH]; cbn [lstrip]; [exact I | ].
  destruct (isspace c) eqn:E; [exact IH | exact E].
Qed.

Lemma strip_edges s : no_edge_space (strip s).
Proof.
  unfold no_edge_space, strip, rstrip. split.
  - destruct (lstrip_blanks (rev (lstrip s))) as (l & Hl & _).
    pose proof (lstrip_head s) as Hh.
    apply (f_equal (@rev codepoint)) in Hl.
    rewrite rev_involutive, rev_app_distr in Hl.
    destruct (rev (lstrip (rev (lstrip s)))) as [ | c u]; [exact I | ].
    rewrite Hl in Hh. exact Hh.
  - rewrite rev_involutive. apply lstrip_head.
Qed.

Lemma strip_blanks s : forallb isspace s = true -> strip s = [].
Proof.
  intros H. unfold strip, rstrip.
  assert (E : lstrip s = []).
  { induction s as [ | c s IH]; [reflexivity | ]. cbn in *.
    apply andb_true_iff in H as [-> H]. now apply IH. }
  now rewrite E.
Qed.

Lemma strip_length s : (length (strip s) <= length s)%nat.
Proof.
  destruct (strip_infix s) as (l & r & E). rewrite E at 2.
  rewrite !length_app. lia.
Qed.

Lemma replace_go_length old : forall s k,
  (length (replace_go old [] k s) + Nat.min k (length s) <= length s)%nat.
Proof.
  induction s as [ | c s IH]; intros k; cbn [replace_go length]; [lia | ].
  destruct k as [ | k].
  - destruct (startswith (c :: s) old).
    + cbn [app]. specialize (IH (Nat.pred (length old))). lia.
    + cbn [length]. specialize (IH 0%nat). lia.
  - specialize (IH k). lia.
Qed.

Lemma startswith_length : forall p s,
  startswith s p = true -> (length p <= length s)%nat.
Proof.
  intros p s H. apply startswith_inv in H as [r ->]. rewrite length_app. lia.
Qed.

(** Deleting a text that occurs takes away at least its length. *)
Lemma replace_go_shrinks old : forall s,
  old <> [] -> contains s old = true ->
  (length (replace_go old [] 0 s) + length old <= length s)%nat.
Proof.
  intros s Hold. induction s as [ | c s IH]; intros H.
  - destruct old; [easy | discriminate].
  - cbn [contains] in H. cbn [replace_go].
    destruct (startswith (c :: s) old) eqn:E.
    + cbn [app length]. pose proof (startswith_length _ _ E) as Hl.
      cbn [length] in Hl.
      pose proof (replace_go_length old s (Nat.pred (length old))).
      destruct old; [easy | ]. cbn [length Nat.pred] in *. lia.
    + cbn [orb] in H. cbn [length]. specialize (IH H). lia.
Qed.

Lemma digits_acc_bound : forall ds acc v,
  0 <= acc -> digits_acc acc ds = Some v ->
  v < (acc + 1) * 10 ^ Z.of_nat (length ds).
Proof.
  induction ds as [ | c ds IH]; intros acc v Hacc; cbn [digits_acc length].
  - intros [= <-]. cbn. lia.
  - destruct (decimal_value c) as [d | ] eqn:Ed; [ | discriminate].
    apply decimal_value_range in Ed. intros H. apply IH in H; [ | lia].
    rewrite Nat2Z.inj_succ, Z.pow_succ_r by lia.
    assert (0 < 10 ^ Z.of_nat (length ds)) by (apply Z.pow_pos_nonneg; lia).
    nia.
Qed.

Lemma digits_value_bound ds v :
  digits_value ds = Some v -> v < 10 ^ Z.of_nat (length ds).
Proof.
  destruct ds as [ | c ds]; [discriminate | ]. unfold digits_value. intros H.
  apply digits_acc_bound in H; lia.
Qed.

Lemma blank_prefix_no_match a rest j :
  spaces a -> (j < length a)%nat -> match_at (skipn j (a ++ rest)) = None.
Proof.
  intros Ha. revert j. induction a as [ | c a IH]; intros j Hj; [cbn in Hj; lia | ].
  unfold spaces in Ha. cbn in Ha. apply andb_true_iff in Ha as [Hc Ha].
  destruct j as [ | j].
  - rewrite skipn_O. cbn [app].
    destruct (match_at (c :: a ++ rest)) as [r | ] eqn:E; [ | reflexivity].
    apply match_at_head in E. now apply isspace_not_S in Hc.
  - cbn [app]. rewrite skipn_cons. apply IH; [exact Ha | cbn in Hj; lia].
Qed.

Lemma blanks_free_of_token a ws ds :
  spaces a -> spaces ws -> digits ds -> ~ occurs (token ws ds) a.
Proof.
  intros Ha Hws Hds (x & y & E).
  assert (Hin : In 83 a).
  { rewrite E. apply in_or_app. right. apply in_or_app. left.
    destruct (token_first_char_unique ws ds Hws Hds) as (t & -> & _). now left. }
  unfold spaces in Ha. rewrite forallb_forall in Ha.
  now apply Ha, isspace_not_S in Hin.
Qed.

Lemma limit_message_edges max n :
  no_edge_space (error_prefix ++ exc_str (limit_error max n)).
Proof.
  unfold limit_error, ValueError. cbn [exc_str]. split; [reflexivity | ].
  rewrite !app_assoc, rev_app_distr.
  set (f := lit " digits; use sys.set_int_max_str_digits() to increase the limit").
  assert (Hf : rev f = 116 :: tl (rev f)) by (vm_compute; reflexivity).
  rewrite Hf. reflexivity.
Qed.

(** X6: whenever the pattern matches in an HTTP-200 body, the advice that
    comes back neither starts nor ends with a blank, on the parsed path and
    on the digit-limit path alike. *)
Theorem matched_advice_has_no_edge_space max body m score advice :
  re_search SCORE_PATTERN body = Some m ->
  ask_ai_for_score_and_advice max (ok_response body) = Return (score, advice) ->
  no_edge_space advice.
Proof.
  intros Hm. rewrite ask_200, Hm. unfold int.
  destruct (digits_value (group 1 m)) as [v | ].
  - destruct (exceeds_limit max (length (group 1 m))).
    + intros H.
      replace advice
        with (error_prefix ++ exc_str (limit_error max (length (group 1 m))))
        by congruence.
      apply limit_message_edges.
    + intros [= _ <-]. apply strip_edges.
  - intros H.
    assert (E : advice = error_prefix ++ exc_str
                  (ValueError (lit "invalid literal for int() with base 10")))
      by congruence.
    rewrite E. unfold ValueError. cbn [exc_str]. split; vm_compute; reflexivity.
Qed.

Lemma matched_advice_has_no_edge_space_witness :
  no_edge_space (lit "go to bed").
Proof.
  apply (matched_advice_has_no_edge_space 4300 (lit "SCORE: 40  go to bed  ")
           (Match 0 (lit "SCORE: 40") [lit "40"]) 40 (lit "go to bed"));
    vm_compute; reflexivity.
Defined.

(** X7: when the score is parsed, the advice is shorter than the body by at
    least the length of the matched text, which is at least seven
    characters. *)
Theorem parsed_advice_is_shorter max body m score advice :
  re_search SCORE_PATTERN body = Some m ->
  exceeds_limit max (length (group 1 m)) = false ->
  ask_ai_for_score_and_advice max (ok_response body) = Return (score, advice) ->
  (length advice + length (group 0 m) <= length body)%nat /\
  (7 <= length (group 0 m))%nat.
Proof.
  intros Hm Hlim. rewrite ask_200, Hm.
  destruct (re_search_token body m Hm)
    as (ws & ds & (pre & post & Hb & _ & Hws & Hds) & E0 & E1).
  destruct (digits_value_ok ds Hds) as (v & Hv & _).
  rewrite E1 in Hlim. rewrite E1, (int_of_digits max ds v Hv), Hlim.
  intros [= _ <-]. change (group 0 m) with (m_whole m) in *. rewrite !E0. split.
  - pose proof (strip_length (replace body (token ws ds) [])) as Hs.
    assert (Hr : (length (replace body (token ws ds) []) + length (token ws ds)
                  <= length body)%nat).
    { destruct (token_first_char_unique ws ds Hws Hds) as (t & Et & _).
      rewrite Et. unfold replace. apply replace_go_shrinks; [discriminate | ].
      apply contains_occurs. exists pre, post. now rewrite <- Et. }
    lia.
  - unfold token. rewrite !length_app. destruct Hds as [Hne _].
    destruct ds; [easy | ]. change (length score_prefix) with 6%nat. cbn. lia.
Qed.

Lemma parsed_advice_is_shorter_witness :
  (length (lit "go to bed") + length (lit "SCORE: 40") <= length (lit "SCORE: 40  go to bed  "))%nat /\
  (7 <= length (lit "SCORE: 40"))%nat.
Proof.
  apply (parsed_advice_is_shorter 4300 (lit "SCORE: 40  go to bed  ")
           (Match 0 (lit "SCORE: 40") [lit "40"]) 40 (lit "go to bed"));
    vm_compute; reflexivity.
Defined.

Lemma ask_without_prefix max body :
  contains body score_prefix = false ->
  ask_ai_for_score_and_advice max (ok_response body)
  = Return (0, format_error ++ body).
Proof.
  intros H. rewrite ask_200, re_search_none; [reflexivity | ].
  intros i ws ds (pre & post & -> & _). apply not_contains_occurs in H.
  apply H. exists pre, (ws ++ ds ++ post). unfold token.
  now rewrite <- !app_assoc.
Qed.

(** X8: an HTTP-200 body in which the exact text [SCORE:] occurs nowhere (in
    lower case, say, or translated) is answered as malformed: score 0 and the
    format message followed by the body. *)
Theorem body_without_prefix_is_malformed max body :
  contains body score_prefix = false ->
  ask_ai_for_score_and_advice max (ok_response body)
  = Return (0, format_error ++ body).
Proof. exact (ask_without_prefix max body). Qed.

Lemma body_without_prefix_is_malformed_witness :
  ask_ai_for_score_and_advice 4300 (ok_response (lit "Score: 83 / score: 83"))
  = Return (0, format_error ++ lit "Score: 83 / score: 83").
Proof.
  apply (body_without_prefix_is_malformed 4300 (lit "Score: 83 / score: 83")).
  reflexivity.
Defined.

(** X9: with the digit limit switched on, no reply makes the judge return a
    score of [10 ^ limit] or more ([10 ^ 640] when the limit is set below
    the 640 digits that are never checked): under the default, every score
    is below [10 ^ 4300]. *)
Theorem score_is_bounded max reply score advice :
  (0 < max)%nat ->
  ask_ai_for_score_and_advice max reply = Return (score, advice) ->
  score < 10 ^ Z.of_nat (Nat.max max 640).
Proof.
  intros Hmax.
  assert (Hpos : 0 < 10 ^ Z.of_nat (Nat.max max 640))
    by (apply Z.pow_pos_nonneg; lia).
  unfold ask_ai_for_score_and_advice, judge_body, bind, try_except.
  destruct reply as [[status body] | e].
  2:{ destruct (isinstance e "Exception"); [ | discriminate].
      intros H; apply return_fst in H; now subst score. }
  cbn [status_code text].
  destruct (status =? 200); [ | intros H; apply return_fst in H; now subst score].
  destruct (re_search SCORE_PATTERN body) as [m | ];
    [ | intros H; apply return_fst in H; now subst score].
  unfold int. destruct (digits_value (group 1 m)) as [v | ] eqn:Ev;
    [ | intros H; apply return_fst in H; now subst score].
  destruct (exceeds_limit max (length (group 1 m))) eqn:El;
    [intros H; apply return_fst in H; now subst score | ].
  intros H; apply return_fst in H; subst score. apply digits_value_bound in Ev.
  eapply Z.lt_le_trans; [exact Ev | ].
  apply Z.pow_le_mono_r; [lia | ].
  unfold exceeds_limit, max_str_digits_threshold in El.
  destruct (Nat.ltb_spec 640 (length (group 1 m)));
    destruct (Nat.ltb_spec 0 max);
    destruct (Nat.ltb_spec max (length (group 1 m)));
    cbn in El; try discriminate; lia.
Qed.

Lemma score_is_bounded_witness : 250 < 10 ^ Z.of_nat (Nat.max 4300 640).
Proof.
  apply (score_is_bounded 4300 (ok_response (lit "SCORE: 250 wow")) 250 (lit "wow")).
  - lia.
  - vm_compute. reflexivity.
Defined.

(** X10: a body that is nothing but a score token, with blanks before or
    after it at most, gives that score and an empty advice. *)
Theorem token_alone_gives_empty_advice max a ws ds b :
  spaces a -> spaces ws -> digits ds -> spaces b ->
  exceeds_limit max (length ds) = false ->
  exists score,
    digits_value ds = Some score /\
    ask_ai_for_score_and_advice max (ok_response (a ++ token ws ds ++ b))
    = Return (score, []).
Proof.
  intros Ha Hws Hds Hb Hlim.
  destruct (digits_value_ok ds Hds) as (v & Hv & _). exists v. split; [exact Hv | ].
  rewrite (ask_first_token max _ a ws ds b); try easy.
  - rewrite (int_of_digits max ds v Hv), Hlim. do 2 f_equal.
    destruct (token_first_char_unique ws ds Hws Hds) as (t & Et & Ht).
    pose proof (blanks_free_of_token a ws ds Ha Hws Hds) as Fa.
    pose proof (blanks_free_of_token b ws ds Hb Hws Hds) as Fb.
    rewrite Et in *. unfold replace.
    rewrite replace_go_piece, replace_go_clean by assumption. cbn [app].
    apply strip_blanks. unfold spaces in *. now rewrite forallb_app, Ha, Hb.
  - destruct b as [ | c b]; [exact I | ]. unfold spaces in Hb. cbn in Hb.
    apply andb_true_iff in Hb as [Hc _]. now apply isspace_not_decimal.
  - intros j ws' ds' Hj Ht. apply token_at_match in Ht. apply Ht.
    now apply blank_prefix_no_match.
Qed.

Lemma token_alone_gives_empty_advice_witness :
  exists score,
    digits_value (lit "75") = Some score /\
    ask_ai_for_score_and_advice 4300
      (ok_response ([10] ++ token (lit " ") (lit "75") ++ [32; 10]))
    = Return (score, []).
Proof.
  apply (token_alone_gives_empty_advice 4300 [10] (lit " ") (lit "75") [32; 10]);
    try reflexivity.
  split; [discriminate | reflexivity].
Defined.

(* ================================================================== *)
(** ** The Streamlit script: further statements *)
(* ================================================================== *)

Lemma failure_verdict max reply msg :
  failure_message reply = Some msg ->
  ask_ai_for_score_and_advice max reply = Return (0, msg).
Proof.
  destruct reply as [[status body] | e]; cbn [failure_message status_code text].
  - destruct (status =? 200) eqn:Es.
    + apply Z.eqb_eq in Es as ->.
      destruct (contains body score_prefix) eqn:Ec; [discriminate | ].
      intros H. assert (E : msg = format_error ++ body) by congruence.
      rewrite E. now apply ask_without_prefix.
    + intros H. assert (E : msg = connection_error) by congruence. rewrite E.
      unfold ask_ai_for_score_and_advice, judge_body, bind, try_except.
      cbn [status_code]. now rewrite Es.
  - destruct (isinstance e "Exception") eqn:He; [ | discriminate].
    intros H. assert (E : msg = error_prefix ++ exc_str e) by congruence.
    rewrite E.
    unfold ask_ai_for_score_and_advice, judge_body, bind, try_except.
    now rewrite He.
Qed.

(** X11: whatever values the state held before, a rerun with the button
    pressed whose reply cannot be scored stores score 0 and the message of
    the failure ([Error: ] and the description for an instance of
    [Exception], the connection message for a status other than 200, the
    format message and the body when [SCORE:] does not occur in it) and
    renders them in the error box. *)
Theorem failed_evaluation_is_shown_as_error max ss ev msg :
  button ev = true -> failure_message (reply ev) = Some msg ->
  fst (run_script max ss ev) !! "ai_score" = Some (PyInt 0) /\
  fst (run_script max ss ev) !! "ai_advice" = Some (PyStr msg) /\
  shown (Some (snd (run_script max ss ev)))
  = Some (Evaluation 0 (PyStr msg) Error).
Proof.
  intros Hb Hf. unfold run_script, on_button.
  rewrite Hb, (failure_verdict max (reply ev) msg Hf). cbn [bind fst snd].
  unfold show_result.
  rewrite lookup_insert_eq, lookup_insert_ne, lookup_insert_eq by done.
  repeat split.
Qed.

Lemma failed_evaluation_is_shown_as_error_witness :
  let ev := {| sliders := {| sleep := 7; study := 6; screen := 3;
                             exercise := 1; social := 2 |};
               button := true;
               reply := Return {| status_code := 500; text := lit "SCORE: 99" |} |} in
  fst (run_script 4300 (<["ai_score" := PyInt 99]> ∅) ev) !! "ai_score"
  = Some (PyInt 0) /\
  fst (run_script 4300 (<["ai_score" := PyInt 99]> ∅) ev) !! "ai_advice"
  = Some (PyStr connection_error) /\
  shown (Some (snd (run_script 4300 (<["ai_score" := PyInt 99]> ∅) ev)))
  = Some (Evaluation 0 (PyStr connection_error) Error).
Proof.
  intros ev.
  apply (failed_evaluation_is_shown_as_error 4300
           (<["ai_score" := PyInt 99]> ∅) ev connection_error);
    reflexivity.
Defined.

Lemma init_state_lookup (ss : gmap string pyval) (k : string) :
  init_state ss !! k
  = match ss !! k with
    | Some v => Some v
    | None => if decide (k = "ai_score"%string) then Some PyNone
              else if decide (k = "ai_advice"%string) then Some PyNone
              else None
    end.
Proof.
  unfold init_state.
  destruct (ss !! "ai_score") as [s | ] eqn:Es.
  - destruct (ss !! "ai_advice") as [a | ] eqn:Ea.
    + destruct (ss !! k) eqn:Ek; [reflexivity | ].
      repeat destruct decide; congruence.
    + destruct (decide (k = "ai_advice"%string)) as [-> | Hn].
      * rewrite lookup_insert_eq, Ea. now destruct decide.
      * rewrite lookup_insert_ne by done. destruct (ss !! k) eqn:Ek; [reflexivity | ].
        destruct decide; congruence.
  - rewrite lookup_insert_ne by done.
    destruct (ss !! "ai_advice") as [a | ] eqn:Ea.
    + destruct (decide (k = "ai_score"%string)) as [-> | Hn].
      * now rewrite lookup_insert_eq, Es.
      * rewrite lookup_insert_ne by done. destruct (ss !! k) eqn:Ek; [reflexivity | ].
        destruct decide; congruence.
    + destruct (decide (k = "ai_score"%string)) as [-> | Hn].
      * now rewrite lookup_insert_ne, lookup_insert_eq, Es.
      * destruct (decide (k = "ai_advice"%string)) as [-> | Hn'].
        -- now rewrite lookup_insert_eq, Ea.
        -- rewrite !lookup_insert_ne by done. now destruct (ss !! k).
Qed.

(** X12: the first lines of the script never overwrite what is stored: every
    key keeps its value, the two result keys exist afterwards, no other key
    appears, and running the lines again changes nothing. *)
Theorem init_state_keeps_stored_values (ss : gmap string pyval) :
  (forall k v, ss !! k = Some v -> init_state ss !! k = Some v) /\
  is_Some (init_state ss !! "ai_score") /\
  is_Some (init_state ss !! "ai_advice") /\
  (forall k, k <> "ai_score"%string -> k <> "ai_advice"%string ->
             init_state ss !! k = ss !! k) /\
  init_state (init_state ss) = init_state ss.
Proof.
  split; [ | split; [ | split; [ | split]]].
  - intros k v Hk. now rewrite init_state_lookup, Hk.
  - rewrite init_state_lookup. destruct (ss !! "ai_score"); [eauto | ].
    now destruct decide.
  - rewrite init_state_lookup. destruct (ss !! "ai_advice"); [eauto | ].
    repeat destruct decide; try done.
  - intros k H1 H2. rewrite init_state_lookup. destruct (ss !! k); [reflexivity | ].
    repeat destruct decide; congruence.
  - apply map_eq. intros k. rewrite init_state_lookup.
    destruct (init_state ss !! k) eqn:E; [reflexivity | ].
    rewrite init_state_lookup in E. destruct (ss !! k); [discriminate | ].
    repeat destruct decide; congruence.
Qed.

Lemma init_state_keeps_stored_values_witness :
  init_state (<["ai_score" := PyInt 83]> ∅) !! "ai_score" = Some (PyInt 83).
Proof.
  apply (proj1 (init_state_keeps_stored_values (<["ai_score" := PyInt 83]> ∅))).
  apply lookup_insert_eq.
Defined.

(* ================================================================== *)
(** ** The timeline strip: further statements *)
(* ================================================================== *)

Lemma draw_nothing pixels_per_hour items x drawn :
  positive_hours items = [] ->
  draw_sections pixels_per_hour items x drawn = (x, drawn).
Proof.
  induction items as [ | [category hours] items IH]; intros H; [reflexivity | ].
  unfold positive_hours in H. cbn [List.filter snd] in H. cbn [draw_sections].
  destruct (0 <? hours)%float; [discriminate | now apply IH].
Qed.

(** X13: when no entry has hours above zero (all sliders at 0, or values
    that are negative or not a number), whatever the dict holds, the strip
    is a single rectangle in the fallback grey over the whole image. *)
Theorem day_without_hours_is_all_grey (data : dict float) :
  positive_hours data = [] ->
  shapes (create_timeline_art data)
  = [{| x0 := 0; y0 := 0; x1 := width; y1 := height; fill := "#95A5A6" |}].
Proof.
  intros H. unfold create_timeline_art. rewrite draw_nothing by exact H.
  reflexivity.
Qed.

Lemma day_without_hours_is_all_grey_witness :
  shapes (create_timeline_art
            (input_data {| sleep := 0; study := 0; screen := -1;
                           exercise := nan; social := 0 |}))
  = [{| x0 := 0; y0 := 0; x1 := width; y1 := height; fill := "#95A5A6" |}].
Proof.
  apply (day_without_hours_is_all_grey
           (input_data {| sleep := 0; study := 0; screen := -1;
                          exercise := nan; social := 0 |})).
  vm_compute. reflexivity.
Defined.

(** X14: when the slider positions add up to at most 24 hours, the strip is
    drawn on whole pixels, 25 for every half hour: each entry above zero
    gets a section from pixel 25 times the half hours before it to 25 times
    the half hours up to and including it, and the grey rest, from the end
    of the last section to the right edge, is there exactly when the total
    is below 24 hours. *)
Theorem day_within_24_hours_has_exact_pixels (items : list (string * nat)) :
  (total_positions items <= 48)%nat ->
  shapes (create_timeline_art (slider_dict items))
  = exact_sections 0 items
    ++ (if (total_positions items <? 48)%nat
        then [{| x0 := px (25 * total_positions items); y0 := 0;
                 x1 := width; y1 := height; fill := "#95A5A6" |}]
        else []).
Proof.
  intros H. unfold create_timeline_art, py_sum.
  change 0%float with (half_hours 0) at 1.
  rewrite slider_sum by (cbn; lia). cbn [Nat.add].
  rewrite scale_50 by exact H.
  change 0%float with (px (25 * 0)) at 1.
  rewrite draw_exact by (cbn; lia). cbn [Nat.add shapes app].
  rewrite fill_needed by exact H.
  now destruct (total_positions items <? 48)%nat; [ | rewrite app_nil_r].
Qed.

Lemma day_within_24_hours_has_exact_pixels_witness :
  shapes (create_timeline_art (input_data (slider_input 14 12 0 2 4)))
  = [{| x0 := 0; y0 := 0; x1 := 350; y1 := height; fill := "#2C3E50" |};
     {| x0 := 350; y0 := 0; x1 := 650; y1 := height; fill := "#E67E22" |};
     {| x0 := 650; y0 := 0; x1 := 700; y1 := height; fill := "#27AE60" |};
     {| x0 := 700; y0 := 0; x1 := 800; y1 := height; fill := "#F1C40F" |};
     {| x0 := 800; y0 := 0; x1 := width; y1 := height; fill := "#95A5A6" |}].
Proof.
  change (input_data (slider_input 14 12 0 2 4))
    with (slider_dict [("Sleep", 14); ("Study", 12); ("Screen", 0);
                       ("Exercise", 2); ("Social", 4)]%nat).
  rewrite (day_within_24_hours_has_exact_pixels
             [("Sleep", 14); ("Study", 12); ("Screen", 0);
              ("Exercise", 2); ("Social", 4)]%nat).
  - vm_compute. reflexivity.
  - vm_compute. lia.
Defined.

Lemma slider_total k1 k2 k3 k4 k5 :
  (k1 <= 48)%nat -> (k2 <= 48)%nat -> (k3 <= 48)%nat -> (k4 <= 48)%nat ->
  (k5 <= 48)%nat ->
  (half_hours k1 + half_hours k2 + half_hours k3 + half_hours k4
   + half_hours k5)%float
  = half_hours (k1 + k2 + k3 + k4 + k5).
Proof. intros H1 H2 H3 H4 H5. now rewrite !half_hours_add by lia. Qed.

(** X15: with the sliders at positions [k1] to [k5] (steps of 0.5 from 0 to
    24), a rerun that renders shows the warning exactly when the positions
    add up to more than 48 half hours: the float sum of the five values
    loses nothing. *)
Theorem warning_exactly_above_24_hours max ss ev k1 k2 k3 k4 k5 d :
  (k1 <= 48)%nat -> (k2 <= 48)%nat -> (k3 <= 48)%nat -> (k4 <= 48)%nat ->
  (k5 <= 48)%nat ->
  sliders ev = slider_input k1 k2 k3 k4 k5 ->
  snd (run_script max ss ev) = Return d ->
  over_24 d = (48 <? k1 + k2 + k3 + k4 + k5)%nat.
Proof.
  intros H1 H2 H3 H4 H5 Hs. unfold run_script. rewrite Hs.
  destruct (on_button max ev (init_state ss)) as [ss' | e];
    cbn [snd]; [ | discriminate].
  destruct (show_result ss') as [p | e]; cbn [bind]; [ | discriminate].
  intros [= <-]. cbn [over_24 slider_input sleep study screen exercise social].
  rewrite slider_total by assumption. apply over_24_exact. lia.
Qed.

Lemma warning_exactly_above_24_hours_witness :
  exists d,
    snd (run_script 4300 ∅
           {| sliders := slider_input 14 12 6 2 15; button := false;
              reply := Raised KeyboardInterrupt |})
    = Return d /\
    over_24 d = true.
Proof.
  eexists. split; [vm_compute; reflexivity | ].
  apply (warning_exactly_above_24_hours 4300 ∅
           {| sliders := slider_input 14 12 6 2 15; button := false;
              reply := Raised KeyboardInterrupt |}
           14 12 6 2 15); try lia; [reflexivity | vm_compute; reflexivity].
Defined.

(* ================================================================== *)
(** ** The bar chart: further statements *)
(* ================================================================== *)

(** X16: for any dict, known categories or not, the chart has one bar per
    entry, in dict order, in the colour of its category (grey for a
    category without a colour) and as high as the entry's hours, a zero of
    either sign being stored as [0.0] and any other value bit for bit; the
    labels are those of the entries with hours above zero, in dict order,
    each reading the hours and standing 0.5 above them: an entry at zero,
    below zero or not a number has a bar and no label. *)
Theorem bar_chart_of_any_dict (data : dict float) :
  fig_bars (create_bar_chart data) = map bar_of data /\
  fig_texts (create_bar_chart data) = map label_of (positive_hours data).
Proof. exact (bar_chart_parts data). Qed.

Lemma section_fills (data : dict float) entries segments :
  Forall2 (section_of data) entries segments ->
  map fill segments = map (fun kv => bar_color (bar_of kv)) entries.
Proof.
  induction 1 as [ | kv seg entries segments [Hfill _] _ IH]; [reflexivity | ].
  cbn [map bar_of bar_color]. now rewrite Hfill, IH.
Qed.

(** X17: the two pictures agree: the strip is the sections followed by at
    most one more rectangle, and the sections are, in order and in colour,
    the bars of the chart that carry a label. *)
Theorem strip_sections_match_labelled_bars (data : dict float) :
  exists segments rest,
    shapes (create_timeline_art data) = segments ++ rest /\
    (length rest <= 1)%nat /\
    length segments = length (fig_texts (create_bar_chart data)) /\
    map fill segments
    = map bar_color
          (List.filter (fun b => (0 <? bar_height b)%float)
                       (fig_bars (create_bar_chart data))).
Proof.
  destruct (bar_chart_parts data) as [-> ->].
  unfold create_timeline_art. fold (denominator data).
  destruct (draw_sections_spec data data 0%float [])
    as (segments & x_end & -> & Hsegs & _).
  exists segments,
    (if (x_end <? width)%float
     then [{| x0 := x_end; y0 := 0; x1 := width; y1 := height;
              fill := "#95A5A6" |}]
     else []).
  split; [ | split; [ | split]].
  - cbn [shapes app]. destruct (x_end <? width)%float; [ | now rewrite app_nil_r].
    reflexivity.
  - destruct (x_end <? width)%float; cbn; lia.
  - rewrite length_map. symmetry. eapply Forall2_length. exact Hsegs.
  - rewrite (section_fills data _ _ Hsegs). unfold positive_hours.
    clear Hsegs. induction data as [ | [category hours] data IH]; [reflexivity | ].
    cbn [map List.filter bar_of bar_height snd].
    rewrite unsigned_zero_positive.
    destruct (0 <? hours)%float; cbn [map]; now rewrite IH.
Qed.

(* ================================================================== *)
(** ** The Streamlit script: what a rerun can fail on *)
(* ================================================================== *)

Lemma show_result_init (ss : gmap string pyval) :
  show_result (init_state ss)
  = match ss !! "ai_score" with
    | Some (PyInt final_score) =>
        Return (Evaluation final_score (default PyNone (ss !! "ai_advice"))
                           (box_for final_score))
    | Some (PyStr _) =>
        Raised (TypeError (lit "'>=' not supported between instances of 'str' and 'int'"))
    | _ => Return Prompt
    end.
Proof.
  unfold show_result. rewrite !init_state_lookup.
  destruct (ss !! "ai_score") as [[ | z | s] | ]; try reflexivity.
  destruct (ss !! "ai_advice"); reflexivity.
Qed.

(** X18: started from a state as the script leaves it (under [ai_score]
    nothing, [None] or an integer), a rerun fails on no missing key and no
    comparison: it ends in an exception exactly when the button is pressed
    and the remote call raises an exception that is no instance of
    [Exception]; the exception is that one, and the state is then what the
    first lines of the script make of the state before. *)
Theorem rerun_fails_only_when_interrupted max (ss : gmap string pyval) ev :
  script_state ss ->
  (forall e, snd (run_script max ss ev) = Raised e
             <-> button ev = true /\ reply ev = Raised e /\
                 isinstance e "Exception" = false) /\
  (interrupted ev = true -> fst (run_script max ss ev) = init_state ss).
Proof.
  intros Hss. unfold run_script, on_button, interrupted.
  destruct (button ev); cbn [andb].
  - destruct (caught (reply ev)) eqn:Hc.
    + rewrite (ask_verdict max ev Hc). destruct (verdict max ev) as [score advice].
      cbn [bind snd negb]. unfold show_result.
      rewrite lookup_insert_ne, !lookup_insert_eq by done. cbn [bind].
      split; [ | discriminate].
      intros e. split; [discriminate | ].
      intros (_ & Hr & He). rewrite Hr in Hc. cbn [caught] in Hc. congruence.
    + destruct (ask_escapes max (reply ev) Hc) as (e' & Hr & ->).
      cbn [bind fst snd]. split; [ | reflexivity].
      intros e. rewrite Hr in *. cbn [caught] in Hc. split.
      * intros [= <-]. now repeat split.
      * now intros (_ & [= <-] & _).
  - cbn [snd]. rewrite show_result_init. split; [ | discriminate].
    intros e. split; [ | now intros [? _]].
    unfold script_state in Hss.
    destruct (ss !! "ai_score") as [[ | z | s] | ]; cbn [bind];
      try discriminate. contradiction.
Qed.

Lemma rerun_fails_only_when_interrupted_witness :
  let ev := {| sliders := {| sleep := 7; study := 6; screen := 3;
                             exercise := 1; social := 2 |};
               button := true;
               reply := Raised KeyboardInterrupt |} in
  (forall e, snd (run_script 4300 (<["ai_score" := PyInt 83]> ∅) ev) = Raised e
             <-> button ev = true /\ reply ev = Raised e /\
                 isinstance e "Exception" = false) /\
  (interrupted ev = true ->
   fst (run_script 4300 (<["ai_score" := PyInt 83]> ∅) ev)
   = init_state (<["ai_score" := PyInt 83]> ∅)).
Proof.
  intros ev.
  apply (rerun_fails_only_when_interrupted 4300 (<["ai_score" := PyInt 83]> ∅) ev).
  unfold script_state. now rewrite lookup_insert_eq.
Defined.
